(** * LightRAG: bounded subgraph extraction and the semantic response cache

    A shallow embedding of the algorithmic core of the repository:

    - [lightrag/kg/neo4j_impl.py]: [get_knowledge_graph] (result assembly)
      and [_robust_fallback] (breadth-first extraction);
    - [lightrag/kg/postgres_impl.py]: [get_knowledge_graph] (result assembly);
    - [lightrag/utils.py]: [cosine_similarity], [quantize_embedding],
      [dequantize_embedding], [get_best_cached_response], [save_to_cache].

    Python sets and dicts used as sets are [gset]/[gmap] from stdpp, dicts
    whose iteration order matters are association lists, exceptions are an
    explicit [Raise] result, and numpy's float64/float32 arithmetic is the
    IEEE 754 specification [SpecFloat] of the Standard Library. *)

From stdpp Require Import gmap strings pretty list.
From Stdlib Require Import Ascii ZArith QArith Qround Qabs Lqa Lia.
From Stdlib Require Import SpecFloat.

Open Scope Z_scope.

(** ** Python results: a value or a raised exception *)

Inductive exn := KeyError | ValueError | TypeError | InterfaceError.

Inductive result (A : Type) :=
| Ok (a : A)
| Raise (e : exn).
Arguments Ok {A} a.
Arguments Raise {A} e.

#[global] Instance result_ret : MRet result := @Ok.

#[global] Instance result_bind : MBind result := fun A B k r =>
  match r with
  | Ok a => k a
  | Raise e => Raise e
  end.

(** Truthiness of an optional string: [None] and [""] are falsy. *)
Definition truthy (o : option string) : bool :=
  match o with
  | Some s => negb (String.eqb s "")
  | None => false
  end.

(** [f"{x}"] of an optional string. *)
Definition fstr (o : option string) : string :=
  match o with
  | Some s => s
  | None => "None"
  end.

(** [tuple(sorted([a, b]))] on two strings. *)
Definition sorted_pair (a b : string) : string * string :=
  if String.leb a b then (a, b) else (b, a).

(** ** The graph data model ([lightrag/types.py]) *)

Definition properties := list (string * string).

Record KnowledgeGraphNode := {
  n_id : string;
  n_labels : list (option string);
  n_properties : properties
}.

Record KnowledgeGraphEdge := {
  e_id : string;
  e_type : string;
  e_source : string;
  e_target : string;
  e_properties : properties
}.

Record KnowledgeGraph := {
  nodes : list KnowledgeGraphNode;
  edges : list KnowledgeGraphEdge;
  is_truncated : bool
}.

Definition empty_graph : KnowledgeGraph :=
  {| nodes := []; edges := []; is_truncated := false |}.

(** ** What the Neo4j driver hands back *)

Record Neo4jNode := {
  neo_id : Z;
  neo_entity_id : option string;
  neo_properties : properties
}.

Record Neo4jRel := {
  rel_id : Z;
  rel_type : string;
  rel_start : Z;
  rel_end : Z;
  rel_properties : properties
}.

(** One row of [MATCH (a:base {entity_id: $entity_id})-[r]-(b)
    RETURN r, b, edge_id, target_id]. *)
Record NeighborRecord := {
  rec_r : Neo4jRel;
  rec_b : Neo4jNode;
  rec_edge_id : Z;
  rec_target_id : Z
}.

(** The two point queries of [_robust_fallback], as answered by the store:
    the single node carrying an [entity_id], and the rows of the neighbour
    query in the order the store streams them. *)
Record GraphView := {
  match_entity : string -> option Neo4jNode;
  match_neighbors : string -> list NeighborRecord
}.

(** ** [_robust_fallback]: breadth-first extraction *)

Definition queue_item : Type := KnowledgeGraphNode * option KnowledgeGraphEdge * Z.

Record bfs_state := {
  bfs_result : KnowledgeGraph;
  visited_nodes : gset string;
  visited_edges : gset string;
  visited_edge_pairs : gset (string * string);
  queue : list queue_item
}.

Definition append_node (nd : KnowledgeGraphNode) (st : bfs_state) : bfs_state :=
  {| bfs_result := {| nodes := nodes (bfs_result st) ++ [nd];
                      edges := edges (bfs_result st);
                      is_truncated := is_truncated (bfs_result st) |};
     visited_nodes := visited_nodes st ∪ {[ n_id nd ]};
     visited_edges := visited_edges st;
     visited_edge_pairs := visited_edge_pairs st;
     queue := queue st |}.

Definition append_edge (ed : KnowledgeGraphEdge) (st : bfs_state) : bfs_state :=
  {| bfs_result := {| nodes := nodes (bfs_result st);
                      edges := edges (bfs_result st) ++ [ed];
                      is_truncated := is_truncated (bfs_result st) |};
     visited_nodes := visited_nodes st;
     visited_edges := visited_edges st ∪ {[ e_id ed ]};
     visited_edge_pairs := visited_edge_pairs st;
     queue := queue st |}.

Definition add_pair (p : string * string) (st : bfs_state) : bfs_state :=
  {| bfs_result := bfs_result st;
     visited_nodes := visited_nodes st;
     visited_edges := visited_edges st;
     visited_edge_pairs := visited_edge_pairs st ∪ {[ p ]};
     queue := queue st |}.

Definition set_queue (q : list queue_item) (st : bfs_state) : bfs_state :=
  {| bfs_result := bfs_result st;
     visited_nodes := visited_nodes st;
     visited_edges := visited_edges st;
     visited_edge_pairs := visited_edge_pairs st;
     queue := q |}.

Definition set_truncated (st : bfs_state) : bfs_state :=
  {| bfs_result := {| nodes := nodes (bfs_result st);
                      edges := edges (bfs_result st);
                      is_truncated := true |};
     visited_nodes := visited_nodes st;
     visited_edges := visited_edges st;
     visited_edge_pairs := visited_edge_pairs st;
     queue := queue st |}.

(** [records = await results.fetch(1000)  # Max neighbor nodes we can handle] *)
Definition fetch_limit : nat := 1000.

Definition target_node_of (target_id : string) (b_node : Neo4jNode) : KnowledgeGraphNode :=
  {| n_id := target_id;
     n_labels := [Some target_id];
     n_properties := neo_properties b_node |}.

Definition target_edge_of (edge_id : string) (rel : Neo4jRel)
    (current_node : KnowledgeGraphNode) (target_id : string) : KnowledgeGraphEdge :=
  {| e_id := edge_id;
     e_type := rel_type rel;
     e_source := n_id current_node;
     e_target := target_id;
     e_properties := rel_properties rel |}.

(** The entity id, node and edge a neighbour record stands for. *)
Definition record_target (record : NeighborRecord) : string :=
  fstr (neo_entity_id (rec_b record)).

Definition record_node (record : NeighborRecord) : KnowledgeGraphNode :=
  target_node_of (record_target record) (rec_b record).

Definition record_edge (current_node : KnowledgeGraphNode) (record : NeighborRecord)
    : KnowledgeGraphEdge :=
  target_edge_of (pretty (rec_edge_id record)) (rec_r record) current_node
                 (record_target record).

(** The body of [for record in records]. *)
Definition process_record (max_depth : Z) (current_node : KnowledgeGraphNode)
    (current_depth : Z) (st : bfs_state) (record : NeighborRecord) : bfs_state :=
  let rel := rec_r record in
  let edge_id := pretty (rec_edge_id record) in
  if bool_decide (edge_id ∈ visited_edges st) then st
  else
    let b_node := rec_b record in
    let target_id := neo_entity_id b_node in
    if truthy target_id then
      let target_id := fstr target_id in
      let target_node := target_node_of target_id b_node in
      let target_edge := target_edge_of edge_id rel current_node target_id in
      let pair := sorted_pair (n_id current_node) target_id in
      let st1 :=
        if bool_decide (pair ∈ visited_edge_pairs st) then st
        else if bool_decide (target_id ∈ visited_nodes st)
                || (negb (bool_decide (target_id ∈ visited_nodes st))
                    && (current_depth <? max_depth))
        then add_pair pair (append_edge target_edge st)
        else st in
      if bool_decide (target_id ∈ visited_nodes st1) then st1
      else if current_depth <? max_depth
      then set_queue (queue st1 ++ [(target_node, None, current_depth + 1)]) st1
      else st1
    else st.

(** [result.nodes.append(current_node)] and, for an item that carries an
    edge not yet added, [result.edges.append(current_edge)]. *)
Definition visit (current_node : KnowledgeGraphNode)
    (current_edge : option KnowledgeGraphEdge) (st : bfs_state) : bfs_state :=
  let st := append_node current_node st in
  match current_edge with
  | Some ed =>
    if bool_decide (e_id ed ∈ visited_edges st) then st
    else append_edge ed st
  | None => st
  end.

(** The rows the neighbour query hands over for a node. *)
Definition fetched (g : GraphView) (entity_id : string) : list NeighborRecord :=
  take fetch_limit (match_neighbors g entity_id).

(** One pass of the [while] body on the dequeued item; the flag tells
    whether the pass ended in [break]. *)
Definition loop_body (g : GraphView) (max_depth max_nodes : Z)
    (item : queue_item) (st : bfs_state) : bfs_state * bool :=
  let '(current_node, current_edge, current_depth) := item in
  if bool_decide (n_id current_node ∈ visited_nodes st) then (st, false)
  else if current_depth >? max_depth then (st, false)
  else
    let st := visit current_node current_edge st in
    if Z.of_nat (size (visited_nodes st)) >=? max_nodes
    then (set_truncated st, true)
    else
      let records := fetched g (n_id current_node) in
      (foldl (process_record max_depth current_node current_depth) st records, false).

(** [while queue and len(visited_nodes) < max_nodes]; [None] is the loop
    running out of [fuel]. *)
Fixpoint bfs_loop (g : GraphView) (max_depth max_nodes : Z) (fuel : nat)
    (st : bfs_state) : option bfs_state :=
  match queue st with
  | [] => Some st
  | item :: rest =>
    if negb (Z.of_nat (size (visited_nodes st)) <? max_nodes) then Some st
    else
      match fuel with
      | O => None
      | S fuel' =>
        match loop_body g max_depth max_nodes item (set_queue rest st) with
        | (st', true) => Some st'
        | (st', false) => bfs_loop g max_depth max_nodes fuel' st'
        end
      end
  end.

Definition initial_state (start_node : KnowledgeGraphNode) : bfs_state :=
  {| bfs_result := empty_graph;
     visited_nodes := ∅;
     visited_edges := ∅;
     visited_edge_pairs := ∅;
     queue := [(start_node, None, 0)] |}.

(** Every pass of the loop either drops a queue entry or visits a new node
    and enqueues at most [fetch_limit] entries, so this many passes suffice
    (see [bfs_loop_terminates]). *)
Definition bfs_fuel (max_nodes : Z) : nat :=
  S (S fetch_limit * Z.to_nat max_nodes).

(** The passes the loop can still make from a state: the measure behind
    [bfs_fuel]. *)
Definition passes_left (max_nodes : Z) (st : bfs_state) : nat :=
  length (queue st) + S fetch_limit * (Z.to_nat max_nodes - size (visited_nodes st)).

(** The ids in the result are pairwise distinct, and are all marked
    visited. *)
Definition distinct_ids (st : bfs_state) : Prop :=
  NoDup (n_id <$> nodes (bfs_result st)) /\
  (forall x, x ∈ n_id <$> nodes (bfs_result st) -> x ∈ visited_nodes st) /\
  NoDup (e_id <$> edges (bfs_result st)) /\
  (forall x, x ∈ e_id <$> edges (bfs_result st) -> x ∈ visited_edges st).

(** [KnowledgeGraphNode(id=f"{n.get('entity_id')}", labels=[n.get("entity_id")], ...)] *)
Definition start_node_of (n : Neo4jNode) : KnowledgeGraphNode :=
  {| n_id := fstr (neo_entity_id n);
     n_labels := [neo_entity_id n];
     n_properties := neo_properties n |}.

Definition _robust_fallback (g : GraphView) (node_label : string)
    (max_depth max_nodes : Z) : option KnowledgeGraph :=
  match match_entity g node_label with
  | None => Some empty_graph
  | Some n =>
    bfs_result <$>
      bfs_loop g max_depth max_nodes (bfs_fuel max_nodes)
               (initial_state (start_node_of n))
  end.

(** Where the content of a state comes from: a node is the start node or
    the far end of a fetched record of a node in the result, an edge is a
    fetched record of a node in the result, and a queued item carries no
    edge. *)
Definition from_record (g : GraphView) (st : bfs_state) (nd : KnowledgeGraphNode) : Prop :=
  exists p r, p ∈ nodes (bfs_result st) /\ r ∈ fetched g (n_id p) /\ nd = record_node r.

Definition provenance (g : GraphView) (start : KnowledgeGraphNode) (st : bfs_state) : Prop :=
  (forall nd, nd ∈ nodes (bfs_result st) -> nd = start \/ from_record g st nd) /\
  (forall ed, ed ∈ edges (bfs_result st) ->
     exists p r, p ∈ nodes (bfs_result st) /\ r ∈ fetched g (n_id p) /\
                 ed = record_edge p r) /\
  (forall nd ed d, (nd, ed, d) ∈ queue st ->
     ed = None /\ (nd = start \/ from_record g st nd)).

(** The flag against the node count. *)
Definition flag_counts (max_nodes : Z) (st : bfs_state) : Prop :=
  size (visited_nodes st) = length (nodes (bfs_result st)) /\
  (is_truncated (bfs_result st) = true ->
   Z.of_nat (length (nodes (bfs_result st))) = max_nodes) /\
  (is_truncated (bfs_result st) = false ->
   Z.of_nat (length (nodes (bfs_result st))) < max_nodes \/ nodes (bfs_result st) = []).

(** ** [Neo4JStorage.get_knowledge_graph] *)

(** The single record of the APOC/degree queries: [node_info],
    [relationships] and, for the unlimited query, [total_nodes]. *)
Record SubgraphRecord := {
  node_info : list Neo4jNode;
  relationships : list Neo4jRel;
  total_nodes : Z
}.

(** A query either raises [neo4jExceptions.ClientError] or yields
    [result.single()]. *)
Inductive answer (A : Type) :=
| ClientError
| Single (r : option A).
Arguments ClientError {A}.
Arguments Single {A} r.

Record Neo4jSession := {
  count_query : answer Z;
  main_query : Z -> answer SubgraphRecord;
  full_query : string -> Z -> answer SubgraphRecord;
  limited_query : string -> Z -> Z -> answer SubgraphRecord;
  session_view : GraphView
}.

Record assembly := {
  asm_result : KnowledgeGraph;
  seen_nodes : gset Z;
  seen_edges : gset Z
}.

(** [for node_info in record["node_info"]] *)
Definition handle_node (a : assembly) (node : Neo4jNode) : assembly :=
  let node_id := neo_id node in
  if bool_decide (node_id ∈ seen_nodes a) then a
  else
    {| asm_result :=
         {| nodes := nodes (asm_result a) ++
                     [{| n_id := pretty node_id;
                         n_labels := [neo_entity_id node];
                         n_properties := neo_properties node |}];
            edges := edges (asm_result a);
            is_truncated := is_truncated (asm_result a) |};
       seen_nodes := seen_nodes a ∪ {[ node_id ]};
       seen_edges := seen_edges a |}.

(** [for rel in record["relationships"]] *)
Definition handle_rel (a : assembly) (rel : Neo4jRel) : assembly :=
  let edge_id := rel_id rel in
  if bool_decide (edge_id ∈ seen_edges a) then a
  else
    {| asm_result :=
         {| nodes := nodes (asm_result a);
            edges := edges (asm_result a) ++
                     [{| e_id := pretty edge_id;
                         e_type := rel_type rel;
                         e_source := pretty (rel_start rel);
                         e_target := pretty (rel_end rel);
                         e_properties := rel_properties rel |}];
            is_truncated := is_truncated (asm_result a) |};
       seen_nodes := seen_nodes a;
       seen_edges := seen_edges a ∪ {[ edge_id ]} |}.

(** [if record: ...] *)
Definition assemble (truncated : bool) (record : option SubgraphRecord) : KnowledgeGraph :=
  let start := {| asm_result := {| nodes := []; edges := []; is_truncated := truncated |};
                  seen_nodes := ∅; seen_edges := ∅ |} in
  match record with
  | Some rec =>
    asm_result (foldl handle_rel (foldl handle_node start (node_info rec))
                      (relationships rec))
  | None => asm_result start
  end.

Definition truncated_graph (truncated : bool) : KnowledgeGraph :=
  {| nodes := []; edges := []; is_truncated := truncated |}.

Definition neo4j_get_knowledge_graph (s : Neo4jSession) (node_label : string)
    (max_depth max_nodes : Z) : option KnowledgeGraph :=
  if String.eqb node_label "*" then
    match count_query s with
    | ClientError => Some (truncated_graph false)
    | Single count_record =>
      let truncated :=
        match count_record with
        | Some total => total >? max_nodes
        | None => false
        end in
      match main_query s max_nodes with
      | ClientError => Some (truncated_graph truncated)
      | Single record => Some (assemble truncated record)
      end
    end
  else
    match full_query s node_label max_depth with
    | ClientError => _robust_fallback (session_view s) node_label max_depth max_nodes
    | Single None => Some (truncated_graph false)
    | Single (Some full_record) =>
      if total_nodes full_record <=? max_nodes
      then Some (assemble false (Some full_record))
      else
        match limited_query s node_label max_depth max_nodes with
        | ClientError => _robust_fallback (session_view s) node_label max_depth max_nodes
        | Single record => Some (assemble true record)
        end
    end.

(** What [seen_nodes] and [seen_edges] guarantee while a result is
    assembled: the ids in it are distinct and stand for seen store ids. *)
Definition seen_ids (a : assembly) : Prop :=
  NoDup (n_id <$> nodes (asm_result a)) /\
  (forall x, x ∈ n_id <$> nodes (asm_result a) -> exists z, x = pretty z /\ z ∈ seen_nodes a) /\
  NoDup (e_id <$> edges (asm_result a)) /\
  (forall x, x ∈ e_id <$> edges (asm_result a) -> exists z, x = pretty z /\ z ∈ seen_edges a).

(** ** [PGGraphStorage.get_knowledge_graph] *)

(** A parsed agtype object: a dict with the keys it may carry. *)
Record AgVertex := {
  v_id : option Z;
  v_properties : option properties
}.

Record AgEdge := {
  ed_id : option Z;
  ed_start_id : option Z;
  ed_end_id : option Z;
  ed_properties : option properties
}.

(** A column of a row: falsy ([None], [{}], [[]]), a dict, a list whose
    items are dicts or something else, or another truthy value. *)
Inductive column (A : Type) :=
| Falsy
| Dict (a : A)
| Items (l : list (option A))
| Other.
Arguments Falsy {A}.
Arguments Dict {A} a.
Arguments Items {A} l.
Arguments Other {A}.

Record PgRow := {
  row_n : column AgVertex;
  row_r : column AgEdge
}.

(** [d[k]] on an optional key. *)
Definition getitem {A : Type} (o : option A) : result A :=
  match o with
  | Some a => Ok a
  | None => Raise KeyError
  end.

Fixpoint assoc (k : string) (d : properties) : option string :=
  match d with
  | [] => None
  | (k', v) :: d' => if String.eqb k' k then Some v else assoc k d'
  end.

Definition dict_has {V : Type} (k : string) (d : list (string * V)) : bool :=
  bool_decide (k ∈ d.*1).

(** [d[k] = v] for a key not yet in the insertion-ordered dict [d]. *)
Definition dict_add {V : Type} (k : string) (v : V) (d : list (string * V)) : list (string * V) :=
  d ++ [(k, v)].

Definition pg_node (node_id : string) (props : properties) : result KnowledgeGraphNode :=
  entity_id ← getitem (assoc "entity_id" props);
  mret {| n_id := node_id; n_labels := [Some entity_id]; n_properties := props |}.

Definition pg_edge (edge_id : string) (e : AgEdge) : result KnowledgeGraphEdge :=
  start_id ← getitem (ed_start_id e);
  end_id ← getitem (ed_end_id e);
  props ← getitem (ed_properties e);
  mret {| e_id := edge_id; e_type := "DIRECTED";
          e_source := pretty start_id; e_target := pretty end_id;
          e_properties := props |}.

Definition nodes_dict_t : Type := list (string * KnowledgeGraphNode).
Definition edges_dict_t : Type := list (string * KnowledgeGraphEdge).

(** [if result.get("n") and isinstance(result["n"], dict)] *)
Definition single_node (nodes_dict : nodes_dict_t) (v : AgVertex) : result nodes_dict_t :=
  i ← getitem (v_id v);
  let node_id := pretty i in
  if dict_has node_id nodes_dict then mret nodes_dict
  else
    props ← getitem (v_properties v);
    nd ← pg_node node_id props;
    mret (dict_add node_id nd nodes_dict).

(** [for node in result["n"]] *)
Definition list_node (nodes_dict : nodes_dict_t) (item : option AgVertex) : result nodes_dict_t :=
  match item with
  | Some v =>
    match v_id v with
    | Some i =>
      let node_id := pretty i in
      match v_properties v with
      | Some props =>
        if dict_has node_id nodes_dict then mret nodes_dict
        else nd ← pg_node node_id props; mret (dict_add node_id nd nodes_dict)
      | None => mret nodes_dict
      end
    | None => mret nodes_dict
    end
  | None => mret nodes_dict
  end.

Definition single_edge (edges_dict : edges_dict_t) (e : AgEdge) : result edges_dict_t :=
  i ← getitem (ed_id e);
  let edge_id := pretty i in
  if dict_has edge_id edges_dict then mret edges_dict
  else ed ← pg_edge edge_id e; mret (dict_add edge_id ed edges_dict).

Definition list_edge (edges_dict : edges_dict_t) (item : option AgEdge) : result edges_dict_t :=
  match item with
  | Some e =>
    match ed_id e with
    | Some i =>
      let edge_id := pretty i in
      if dict_has edge_id edges_dict then mret edges_dict
      else ed ← pg_edge edge_id e; mret (dict_add edge_id ed edges_dict)
    | None => mret edges_dict
    end
  | None => mret edges_dict
  end.

(** A [for] loop whose body may raise. *)
Fixpoint for_each {A S : Type} (body : S -> A -> result S) (l : list A) (s : S) : result S :=
  match l with
  | [] => Ok s
  | x :: l' => s' ← body s x; for_each body l' s'
  end.

(** The body of [for result in results]. *)
Definition pg_row (acc : nodes_dict_t * edges_dict_t) (row : PgRow)
    : result (nodes_dict_t * edges_dict_t) :=
  let '(nodes_dict, edges_dict) := acc in
  nodes_dict ←
    match row_n row with
    | Dict v => single_node nodes_dict v
    | Items l => for_each list_node l nodes_dict
    | Falsy | Other => mret nodes_dict
    end;
  edges_dict ←
    match row_r row with
    | Dict e => single_edge edges_dict e
    | Items l => for_each list_edge l edges_dict
    | Falsy | Other => mret edges_dict
    end;
  mret (nodes_dict, edges_dict).

(** [count_result] and [results] are the answers to the count query and to
    the limited data query. *)
Definition pg_get_knowledge_graph (count_result : list Z) (results : list PgRow)
    (max_nodes : Z) : result KnowledgeGraph :=
  let total := match count_result with t :: _ => t | [] => 0 end in
  let truncated := total >? max_nodes in
  acc ← for_each pg_row results ([], []);
  mret {| nodes := acc.1.*2; edges := acc.2.*2; is_truncated := truncated |}.

(** A dict keyed by the [id] its values carry. *)
Definition keyed {V : Type} (key : V -> string) (d : list (string * V)) : Prop :=
  NoDup d.*1 /\ Forall (fun kv => key kv.2 = kv.1) d.

(** ** Arithmetic of numpy scalars and arrays

    The codec and the similarity are written once, over the operations
    they use, and read in two arithmetics: IEEE 754 binary64 with the final
    cast to binary32 (what numpy computes on a list of Python floats), and
    exact rational arithmetic (the same formulas without rounding). *)

Class Arith (F : Type) := {
  f_of_Z : Z -> F;
  f_add : F -> F -> F;
  f_sub : F -> F -> F;
  f_mul : F -> F -> F;
  f_div : F -> F -> F;
  f_ltb : F -> F -> bool;
  f_isnan : F -> bool;
  (** [np.round]: to the nearest integer, halves to even *)
  f_rint : F -> F;
  (** [astype(np.uint8)]; [None] where the C cast is undefined *)
  f_uint8 : F -> option Z;
  (** [astype(np.float32)] *)
  f_float32 : F -> F;
  (** the rational a finite number denotes *)
  f_value : F -> Q
}.

Class Sqrt (F : Type) := f_sqrt : F -> F.

(** *** IEEE 754 binary64 *)

Definition b64_of_Z (z : Z) : spec_float := binary_normalize 53 1024 z 0 false.

Definition b64_isnan (x : spec_float) : bool :=
  match x with
  | S754_nan => true
  | _ => false
  end.

(** Nearest integer, halves to even, of [m * 2^e] with [e < 0]. *)
Definition rint_mantissa (m : positive) (e : Z) : Z :=
  let d := 2 ^ (- e) in
  let q := Z.pos m / d in
  let r := Z.pos m mod d in
  match 2 * r ?= d with
  | Lt => q
  | Gt => q + 1
  | Eq => if Z.even q then q else q + 1
  end.

Definition b64_rint (x : spec_float) : spec_float :=
  match x with
  | S754_finite s m e =>
    if 0 <=? e then x
    else binary_normalize 53 1024 (cond_Zopp s (rint_mantissa m e)) 0 s
  | _ => x
  end.

(** The C conversion truncates toward zero and is defined only when the
    truncated value fits the target type. *)
Definition b64_uint8 (x : spec_float) : option Z :=
  match x with
  | S754_zero _ => Some 0
  | S754_finite s m e =>
    let t := if 0 <=? e then Z.pos m * 2 ^ e else Z.pos m / 2 ^ (- e) in
    if s then (if t =? 0 then Some 0 else None)
    else if t <=? 255 then Some t else None
  | _ => None
  end.

Definition b64_float32 (x : spec_float) : spec_float :=
  match x with
  | S754_finite s m e => binary_normalize 24 128 (cond_Zopp s (Z.pos m)) e s
  | _ => x
  end.

Definition b64_value (x : spec_float) : Q :=
  match x with
  | S754_finite s m e => (inject_Z (cond_Zopp s (Z.pos m)) * Qpower 2 e)%Q
  | _ => 0%Q
  end.

#[global] Instance binary64 : Arith spec_float := {|
  f_of_Z := b64_of_Z;
  f_add := SFadd 53 1024;
  f_sub := SFsub 53 1024;
  f_mul := SFmul 53 1024;
  f_div := SFdiv 53 1024;
  f_ltb := SFltb;
  f_isnan := b64_isnan;
  f_rint := b64_rint;
  f_uint8 := b64_uint8;
  f_float32 := b64_float32;
  f_value := b64_value
|}.

#[global] Instance binary64_sqrt : Sqrt spec_float := SFsqrt 53 1024.

Definition is_zero (x : spec_float) : Prop := exists s, x = S754_zero s.
Definition zero_or_nan (x : spec_float) : Prop := is_zero x \/ x = S754_nan.

(** *** Exact rationals *)

Definition Qltb (x y : Q) : bool := negb (Qle_bool y x).

Definition Qrint (x : Q) : Q :=
  let f := Qfloor x in
  match (x - inject_Z f ?= 1 # 2)%Q with
  | Lt => inject_Z f
  | Gt => inject_Z (f + 1)
  | Eq => if Z.even f then inject_Z f else inject_Z (f + 1)
  end.

Definition Quint8 (x : Q) : option Z :=
  let t := if Qle_bool 0 x then Qfloor x else Qceiling x in
  if (0 <=? t) && (t <=? 255) && Qltb (-1) x then Some t else None.

#[global] Instance exact : Arith Q := {|
  f_of_Z := inject_Z;
  f_add := Qplus;
  f_sub := Qminus;
  f_mul := Qmult;
  f_div := Qdiv;
  f_ltb := Qltb;
  f_isnan := fun _ => false;
  f_rint := Qrint;
  f_uint8 := Quint8;
  f_float32 := fun x => x;
  f_value := fun x => x
|}.

(** ** [QuantizedVectorCodec] and [cosine_similarity] ([lightrag/utils.py]) *)

Section Codec.
Context {F : Type} `{Arith F}.

(** [ndarray.min()] / [ndarray.max()] propagate NaN. *)
Definition f_min (a b : F) : F :=
  if f_isnan a then a else if f_isnan b then b
  else if f_ltb b a then b else a.

Definition f_max (a b : F) : F :=
  if f_isnan a then a else if f_isnan b then b
  else if f_ltb a b then b else a.

(** [astype(np.uint8)] on an array: defined when it is on every item. *)
Definition astype_uint8 (a : list F) : option (list Z) := mapM f_uint8 a.

Definition quantize_embedding (embedding : list F) (bits : Z)
    : result (option (list Z) * F * F) :=
  match embedding with
  | [] => Raise ValueError
  | x :: xs =>
    let min_val := foldl f_min x xs in
    let max_val := foldl f_max x xs in
    let scale := f_div (f_of_Z (2 ^ bits - 1)) (f_sub max_val min_val) in
    let quantized :=
      astype_uint8 ((fun x => f_rint (f_mul (f_sub x min_val) scale)) <$> embedding) in
    Ok (quantized, min_val, max_val)
  end.

Definition dequantize_embedding (quantized : list Z) (min_val max_val : F) (bits : Z)
    : list F :=
  let scale := f_div (f_sub max_val min_val) (f_of_Z (2 ^ bits - 1)) in
  (fun q => f_float32 (f_add (f_mul (f_of_Z q) scale) min_val)) <$> quantized.

(** [np.dot] of two one-dimensional arrays. *)
Definition dot (v1 v2 : list F) : result F :=
  if (length v1 =? length v2)%nat
  then Ok (foldl f_add (f_of_Z 0) (zip_with f_mul v1 v2))
  else Raise ValueError.

Context `{Sqrt F}.

(** [np.linalg.norm] *)
Definition norm (v : list F) : F :=
  f_sqrt (foldl f_add (f_of_Z 0) ((fun x => f_mul x x) <$> v)).

Definition cosine_similarity (v1 v2 : list F) : result F :=
  dot_product ← dot v1 v2;
  let norm1 := norm v1 in
  let norm2 := norm v2 in
  Ok (f_div dot_product (f_mul norm1 norm2)).
End Codec.



(** ** The response cache ([lightrag/utils.py]) *)

#[global] Instance result_fmap : FMap result := fun A B f r =>
  match r with
  | Ok a => Ok (f a)
  | Raise e => Raise e
  end.

(** *** [bytes.hex] and [bytes.fromhex] *)

Definition hex_char (d : Z) : ascii :=
  ascii_of_nat (Z.to_nat (if d <? 10 then 48 + d else 87 + d)).

Definition hex (b : list Z) : string :=
  foldr (fun x s => String (hex_char (x / 16)) (String (hex_char (x mod 16)) s)) "" b.

Definition hex_digit (c : ascii) : option Z :=
  let n := Z.of_nat (nat_of_ascii c) in
  if (48 <=? n) && (n <=? 57) then Some (n - 48)
  else if (97 <=? n) && (n <=? 102) then Some (n - 87)
  else if (65 <=? n) && (n <=? 70) then Some (n - 55)
  else None.

Definition is_space (c : ascii) : bool :=
  let n := nat_of_ascii c in
  (n =? 32)%nat || ((9 <=? n)%nat && (n <=? 13)%nat).

Fixpoint fromhex (s : string) : result (list Z) :=
  match s with
  | EmptyString => Ok []
  | String c1 rest =>
    if is_space c1 then fromhex rest
    else
      match rest with
      | String c2 rest' =>
        match hex_digit c1, hex_digit c2 with
        | Some a, Some b => cons (16 * a + b) <$> fromhex rest'
        | _, _ => Raise ValueError
        end
      | EmptyString => Raise ValueError
      end
  end.

(** *** Cache entries and buckets *)

(** The value under a key of an entry dict: the key is missing, or maps to
    [None], or to a value. *)
Inductive field (A : Type) :=
| Absent
| Null
| Val (a : A).
Arguments Absent {A}.
Arguments Null {A}.
Arguments Val {A} a.

(** [d[k]] *)
Definition item {A : Type} (f : field A) : result (option A) :=
  match f with
  | Absent => Raise KeyError
  | Null => Ok None
  | Val a => Ok (Some a)
  end.

(** [d.get(k)] *)
Definition get {A : Type} (f : field A) : option A :=
  match f with
  | Val a => Some a
  | _ => None
  end.

Definition of_option {A : Type} (o : option A) : field A :=
  match o with
  | Some a => Val a
  | None => Null
  end.

(** Quantized vectors are one-dimensional, so the stored shape [(d,)] is
    its single dimension. *)
Record CacheEntry (F : Type) := {
  ce_return : field string;
  ce_cache_type : field string;
  ce_embedding : field string;
  ce_embedding_shape : field nat;
  ce_embedding_min : field F;
  ce_embedding_max : field F;
  ce_original_prompt : field string
}.
Arguments ce_return {F} _.
Arguments ce_cache_type {F} _.
Arguments ce_embedding {F} _.
Arguments ce_embedding_shape {F} _.
Arguments ce_embedding_min {F} _.
Arguments ce_embedding_max {F} _.
Arguments ce_original_prompt {F} _.

(** A mode bucket: an insertion-ordered dict from [args_hash] to entry. *)
Definition bucket (F : Type) : Type := list (string * CacheEntry F).

Fixpoint dict_get {V : Type} (k : string) (d : list (string * V)) : option V :=
  match d with
  | [] => None
  | (k', v) :: d' => if String.eqb k' k then Some v else dict_get k d'
  end.

(** [d[k] = v]: in place for a present key, at the end for a new one. *)
Fixpoint dict_set {V : Type} (k : string) (v : V) (d : list (string * V)) : list (string * V) :=
  match d with
  | [] => [(k, v)]
  | (k', v') :: d' =>
    if String.eqb k' k then (k, v) :: d' else (k', v') :: dict_set k v d'
  end.

(** *** The key-value storage behind [hashing_kv] *)

Inductive llm_reply :=
| LlmRaises
| LlmReturns (text : string).

Record EmbeddingCacheConfig (F : Type) := {
  cfg_enabled : bool;
  cfg_similarity_threshold : F;
  cfg_use_llm_check : bool
}.
Arguments cfg_enabled {F} _.
Arguments cfg_similarity_threshold {F} _.
Arguments cfg_use_llm_check {F} _.

Record GlobalConfig (F : Type) := {
  enable_llm_cache : bool;
  enable_llm_cache_for_entity_extract : bool;
  embedding_cache_config : option (EmbeddingCacheConfig F);
  llm_model_func : option (string -> llm_reply)
}.
Arguments enable_llm_cache {F} _.
Arguments enable_llm_cache_for_entity_extract {F} _.
Arguments embedding_cache_config {F} _.
Arguments llm_model_func {F} _.

(** [BaseKVStorage] as the cache uses it, over an explicit store state [S].
    [get_by_mode_and_id] is the optional method [exists_func] probes for;
    [upsert] returns the state it leaves behind together with its outcome. *)
Record KVStorage (F S : Type) := {
  get_by_id : S -> string -> result (option (bucket F));
  get_by_mode_and_id : option (S -> string -> string -> result (option (bucket F)));
  upsert : S -> list (string * bucket F) -> S * result unit;
  global_config : GlobalConfig F;
  embedding_func : string -> list F
}.
Arguments get_by_id {F S} _ _ _.
Arguments get_by_mode_and_id {F S} _.
Arguments upsert {F S} _ _ _.
Arguments global_config {F S} _.
Arguments embedding_func {F S} _ _.

(** [x or {}] *)
Definition or_empty {F : Type} (o : option (bucket F)) : bucket F :=
  match o with
  | Some b => b
  | None => []
  end.

(** The bucket read shared by [handle_cache] and [save_to_cache]. *)
Definition fetch_mode_cache {F S : Type} (kv : KVStorage F S) (st : S)
    (mode args_hash : string) : result (bucket F) :=
  match get_by_mode_and_id kv with
  | Some by_mode_and_id => or_empty <$> by_mode_and_id st mode args_hash
  | None => or_empty <$> get_by_id kv st mode
  end.

Section Cache.
Context {F S : Type} `{Arith F} `{Sqrt F}.

(** [float(llm_result.strip())]; [None] when it raises. *)
Variable float_of_reply : string -> option F.
(** [PROMPTS["similarity_check"].format(original_prompt=..., cached_prompt=...)] *)
Variable similarity_check : string -> string -> string.

Record best := {
  best_similarity : F;
  best_response : option string;
  best_prompt : option string;
  best_cache_id : option string
}.

(** [best_similarity = -1], [best_response = None], ... *)
Definition no_best : best :=
  {| best_similarity := f_of_Z (-1); best_response := None;
     best_prompt := None; best_cache_id := None |}.

Definition reshape (a : list Z) (shape : option nat) : result (list Z) :=
  match shape with
  | Some d => if (length a =? d)%nat then Ok a else Raise ValueError
  | None => Raise TypeError
  end.

Definition operand (o : option F) : result F :=
  match o with
  | Some x => Ok x
  | None => Raise TypeError
  end.

(** The body of [for cache_id, cache_data in mode_cache.items()]. *)
Definition scan_entry (cache_type : option string) (current_embedding : list F)
    (b : best) (entry : string * CacheEntry F) : result best :=
  let '(cache_id, cache_data) := entry in
  if truthy cache_type && negb (bool_decide (get (ce_cache_type cache_data) = cache_type))
  then Ok b
  else
    embedding ← item (ce_embedding cache_data);
    match embedding with
    | None => Ok b
    | Some embedding =>
      raw ← fromhex embedding;
      shape ← item (ce_embedding_shape cache_data);
      cached_quantized ← reshape raw shape;
      min_val ← item (ce_embedding_min cache_data);
      max_val ← item (ce_embedding_max cache_data);
      max_val ← operand max_val;
      min_val ← operand min_val;
      let cached_embedding := dequantize_embedding cached_quantized min_val max_val 8 in
      similarity ← cosine_similarity current_embedding cached_embedding;
      if f_ltb (best_similarity b) similarity then
        response ← item (ce_return cache_data);
        prompt ← item (ce_original_prompt cache_data);
        Ok {| best_similarity := similarity;
              best_response := response;
              best_prompt := prompt;
              best_cache_id := Some cache_id |}
      else Ok b
    end.

(** The [try] block of the LLM check: [true] when control leaves it for
    the cache hit, [false] when it returns [None]. *)
Definition llm_accepts (llm_func : string -> llm_reply) (compare_prompt : string)
    (similarity_threshold : F) : bool :=
  match llm_func compare_prompt with
  | LlmRaises => false
  | LlmReturns llm_result =>
    match float_of_reply llm_result with
    | None => false
    | Some llm_similarity => negb (f_ltb llm_similarity similarity_threshold)
    end
  end.

Definition get_best_cached_response (kv : KVStorage F S) (st : S)
    (current_embedding : list F) (similarity_threshold : F) (mode : string)
    (use_llm_check : bool) (llm_func : option (string -> llm_reply))
    (original_prompt : option string) (cache_type : option string)
    : result (option string) :=
  mode_cache ← get_by_id kv st mode;
  match mode_cache with
  | None | Some [] => Ok None
  | Some mode_cache =>
    b ← for_each (scan_entry cache_type current_embedding) mode_cache no_best;
    if f_ltb similarity_threshold (best_similarity b) then
      let hit :=
        match best_prompt b with
        | Some _ => Ok (best_response b)
        | None => Raise TypeError
        end in
      match llm_func with
      | Some llm_func =>
        if use_llm_check && truthy original_prompt && truthy (best_prompt b)
           && bool_decide (is_Some (best_response b))
        then
          let compare_prompt :=
            similarity_check (fstr original_prompt) (fstr (best_prompt b)) in
          if llm_accepts llm_func compare_prompt similarity_threshold
          then hit else Ok None
        else hit
      | None => hit
      end
    else Ok None
  end.

Definition default_embedding_cache_config : EmbeddingCacheConfig F :=
  {| cfg_enabled := false;
     cfg_similarity_threshold := f_div (f_of_Z 95) (f_of_Z 100);
     cfg_use_llm_check := false |}.

(** The result of [handle_cache]: the cached response and, on a semantic
    miss, the fresh [(quantized, min_val, max_val)]. *)
Definition cache_lookup : Type := option string * option (option (list Z) * F * F).

Definition handle_cache (hashing_kv : option (KVStorage F S)) (st : S)
    (args_hash prompt mode : string) (cache_type : option string)
    : result cache_lookup :=
  match hashing_kv with
  | None => Ok (None, None)
  | Some kv =>
    let cfg := global_config kv in
    let exact :=
      mode_cache ← fetch_mode_cache kv st mode args_hash;
      match dict_get args_hash mode_cache with
      | Some entry => r ← item (ce_return entry); Ok (r, None)
      | None => Ok (None, None)
      end in
    if negb (String.eqb mode "default") then
      if negb (enable_llm_cache cfg) then Ok (None, None)
      else
        let embedding_cache_config :=
          default default_embedding_cache_config (embedding_cache_config cfg) in
        let use_llm_check := cfg_use_llm_check embedding_cache_config in
        if cfg_enabled embedding_cache_config then
          let current_embedding := embedding_func kv prompt in
          q ← quantize_embedding current_embedding 8;
          best_cached_response ←
            get_best_cached_response kv st current_embedding
              (cfg_similarity_threshold embedding_cache_config) mode use_llm_check
              (if use_llm_check then llm_model_func cfg else None)
              (Some prompt) cache_type;
          match best_cached_response with
          | Some r => Ok (Some r, None)
          | None => Ok (None, Some q)
          end
        else exact
    else
      if negb (enable_llm_cache_for_entity_extract cfg) then Ok (None, None)
      else exact
  end.

(** *** [save_to_cache] *)

(** [cache_data.content]: a string, or an async iterator still streaming. *)
Inductive content :=
| Text (s : string)
| Streaming.

Record CacheData := {
  cd_args_hash : string;
  cd_content : content;
  cd_prompt : string;
  cd_quantized : option (list Z);
  cd_min_val : option F;
  cd_max_val : option F;
  cd_mode : string;
  cd_cache_type : string
}.

Definition new_entry (text : string) (cache_data : CacheData) : CacheEntry F :=
  {| ce_return := Val text;
     ce_cache_type := Val (cd_cache_type cache_data);
     ce_embedding := of_option (hex <$> cd_quantized cache_data);
     ce_embedding_shape := of_option (length <$> cd_quantized cache_data);
     ce_embedding_min := of_option (cd_min_val cache_data);
     ce_embedding_max := of_option (cd_max_val cache_data);
     ce_original_prompt := Val (cd_prompt cache_data) |}.

Definition save_to_cache (hashing_kv : option (KVStorage F S)) (st : S)
    (cache_data : CacheData) : S * result unit :=
  match hashing_kv, cd_content cache_data with
  | None, _ | _, Streaming => (st, Ok ())
  | Some kv, Text text =>
    if String.eqb text "" then (st, Ok ())
    else
      match fetch_mode_cache kv st (cd_mode cache_data) (cd_args_hash cache_data) with
      | Raise e => (st, Raise e)
      | Ok mode_cache =>
        let unchanged :=
          match dict_get (cd_args_hash cache_data) mode_cache with
          | Some existing => bool_decide (get (ce_return existing) = Some text)
          | None => false
          end in
        if unchanged then (st, Ok ())
        else
          let mode_cache :=
            dict_set (cd_args_hash cache_data) (new_entry text cache_data) mode_cache in
          upsert kv st [(cd_mode cache_data, mode_cache)]
      end
  end.
End Cache.

(** *** [PGKVStorage] in the namespace of the LLM response cache

    The table [LIGHTRAG_LLM_CACHE] of one workspace, keyed by its primary
    key [(mode, id)]; [pg_now] stands for [CURRENT_TIMESTAMP]. *)

Record LlmCacheRow := {
  original_prompt : option string;
  return_value : option string;
  create_time : nat;
  update_time : option nat
}.

Record PgCache := {
  pg_table : gmap (string * string) LlmCacheRow;
  pg_now : nat
}.

(** A fetched row as the dict the cache reads: [id], [original_prompt],
    [COALESCE(return_value, '') as "return"], [mode]. *)
Definition row_entry {F : Type} (row : LlmCacheRow) : CacheEntry F :=
  {| ce_return := Val (default "" (return_value row));
     ce_cache_type := Absent;
     ce_embedding := Absent;
     ce_embedding_shape := Absent;
     ce_embedding_min := Absent;
     ce_embedding_max := Absent;
     ce_original_prompt := of_option (original_prompt row) |}.

Definition rows_of_mode {F : Type} (mode : string) (t : gmap (string * string) LlmCacheRow)
    : bucket F :=
  omap (fun '((m, i), row) => if String.eqb m mode then Some (i, row_entry row) else None)
       (map_to_list t).

Definition pg_get_by_id {F : Type} (st : PgCache) (id : string) : result (option (bucket F)) :=
  let res := rows_of_mode id (pg_table st) in
  Ok (match res with [] => None | _ => Some res end).

(** [params = {"workspace": ..., mode: mode, "id": id}] is passed by
    position: a mode that collides with another key leaves two values for
    three placeholders. *)
Definition pg_get_by_mode_and_id {F : Type} (st : PgCache) (mode id : string)
    : result (option (bucket F)) :=
  if String.eqb mode "workspace" || String.eqb mode "id" then Raise InterfaceError
  else
    Ok (Some match pg_table st !! (mode, id) with
             | Some row => [(id, row_entry row)]
             | None => []
             end).

(** [INSERT ... ON CONFLICT (workspace,mode,id) DO UPDATE SET ...,
    update_time = CURRENT_TIMESTAMP] *)
Definition upsert_llm_response_cache (st : PgCache) (mode id : string)
    (prompt ret : option string) : PgCache :=
  let row :=
    match pg_table st !! (mode, id) with
    | Some old =>
      {| original_prompt := prompt; return_value := ret;
         create_time := create_time old; update_time := Some (pg_now st) |}
    | None =>
      {| original_prompt := prompt; return_value := ret;
         create_time := pg_now st; update_time := None |}
    end in
  {| pg_table := <[(mode, id) := row]> (pg_table st); pg_now := Datatypes.S (pg_now st) |}.

(** A [for] loop over a stateful body: what was written before an
    exception stays written. *)
Fixpoint for_each_st {A S : Type} (body : S -> A -> S * result unit) (l : list A) (s : S)
    : S * result unit :=
  match l with
  | [] => (s, Ok ())
  | x :: l' =>
    match body s x with
    | (s', Ok _) => for_each_st body l' s'
    | (s', Raise e) => (s', Raise e)
    end
  end.

Definition pg_upsert_item {F : Type} (mode : string) (st : PgCache) (kv : string * CacheEntry F)
    : PgCache * result unit :=
  let '(k, v) := kv in
  match item (ce_original_prompt v) with
  | Raise e => (st, Raise e)
  | Ok prompt =>
    match item (ce_return v) with
    | Raise e => (st, Raise e)
    | Ok ret => (upsert_llm_response_cache st mode k prompt ret, Ok ())
    end
  end.

Definition pg_upsert {F : Type} (st : PgCache) (data : list (string * bucket F))
    : PgCache * result unit :=
  for_each_st (fun st '(mode, items) => for_each_st (pg_upsert_item mode) items st) data st.

Definition PGKVStorage {F : Type} (cfg : GlobalConfig F) (embed : string -> list F)
    : KVStorage F PgCache :=
  {| get_by_id := pg_get_by_id;
     get_by_mode_and_id := Some pg_get_by_mode_and_id;
     upsert := pg_upsert;
     global_config := cfg;
     embedding_func := embed |}.

(** *** A store of whole buckets *)

(** Modelled from the spec: the concrete [ModeCache] behind
    [BaseKVStorage] other than [PGKVStorage] is not part of the sources;
    this is the spec's [getBucket(mode) -> mapping | empty] and
    [putBucket(mode, mapping)], a map from mode to bucket. *)
Definition ModeCache {F : Type} (cfg : GlobalConfig F) (embed : string -> list F)
    : KVStorage F (gmap string (bucket F)) :=
  {| get_by_id := fun st mode => Ok (st !! mode);
     get_by_mode_and_id := None;
     upsert := fun st data =>
       (foldl (fun st '(mode, b) => <[mode := b]> st) st data, Ok ());
     global_config := cfg;
     embedding_func := embed |}.

(** What [save_to_cache] relies on from a storage: a fetched bucket is a
    dict, and a bucket that could be read and was written reads back with
    the string it was given under ["return"]. *)
Record lawful {F S : Type} (kv : KVStorage F S) : Prop := {
  fetch_is_dict : forall st mode args_hash mode_cache,
    fetch_mode_cache kv st mode args_hash = Ok mode_cache ->
    NoDup mode_cache.*1;
  read_your_writes : forall st st' mode args_hash before mode_cache entry text,
    fetch_mode_cache kv st mode args_hash = Ok before ->
    NoDup mode_cache.*1 ->
    dict_get args_hash mode_cache = Some entry ->
    ce_return entry = Val text ->
    upsert kv st [(mode, mode_cache)] = (st', Ok ()) ->
    exists stored entry',
      fetch_mode_cache kv st' mode args_hash = Ok stored /\
      dict_get args_hash stored = Some entry' /\
      get (ce_return entry') = Some text
}.

(** ** Concrete stores, graphs and buckets *)

(** A store given by explicit relationships between entity ids: the
    neighbour query of [x] lists every relationship with [x] at either
    end, in stored order. *)
Definition stored_rel : Type := Z * string * string.

Definition entity (x : string) : Neo4jNode :=
  {| neo_id := 0; neo_entity_id := Some x; neo_properties := [] |}.

Definition neighbor_row (x : string) (r : stored_rel) : list NeighborRecord :=
  let '(i, a, b) := r in
  let rel := {| rel_id := i; rel_type := "DIRECTED"; rel_start := 0; rel_end := 0;
                rel_properties := [] |} in
  if String.eqb a x
  then [{| rec_r := rel; rec_b := entity b; rec_edge_id := i; rec_target_id := 0 |}]
  else if String.eqb b x
  then [{| rec_r := rel; rec_b := entity a; rec_edge_id := i; rec_target_id := 0 |}]
  else [].

Definition store_view (ids : list string) (rels : list stored_rel) : GraphView :=
  {| match_entity := fun x =>
       if bool_decide (x ∈ ids) then Some (entity x) else None;
     match_neighbors := fun x => flat_map (neighbor_row x) rels |}.

(** The ids of a result, for reading it. *)
Definition ids_of (r : option KnowledgeGraph) : list string * list string * bool :=
  match r with
  | Some kg => (n_id <$> nodes kg, e_id <$> edges kg, is_truncated kg)
  | None => ([], [], false)
  end.

(** The chain A-B-C-D-E of the spec's scenario A. *)
Definition chain5 : GraphView :=
  store_view ["A"; "B"; "C"; "D"; "E"]
             [(1, "A", "B"); (2, "B", "C"); (3, "C", "D"); (4, "D", "E")].

(** Two nodes and the relationship between them. *)
Definition pair_ab : GraphView := store_view ["A"; "B"] [(1, "A", "B")].

(** A hub [A] with 1001 relationships: 1000 parallel ones to [N], listed
    first, and relationship 1001 to [B]; [N] also reaches [B]. *)
Definition hub : GraphView :=
  store_view ["A"; "N"; "B"]
             ([(1002, "N", "B")]
              ++ ((fun i => (Z.of_nat i, "A", "N")) <$> seq 1 1000)
              ++ [(1001, "A", "B")]).

(** The double [m * 2^e]. *)
Definition b64 (m : Z) (e : Z) : spec_float := binary_normalize 53 1024 m e false.

(** Python's [float] on the literals [nan], [inf] and the plain decimals
    [[sign] digits [. digits]] of at most 15 digits, for which the quotient
    of the two exactly represented integers is the correctly rounded
    double. [None] stands for [ValueError]; longer and exponent literals
    are outside this fragment. *)
Fixpoint decimal_digits (s : string) (acc : Z) (count : nat) : option (Z * nat) :=
  match s with
  | EmptyString => Some (acc, count)
  | String c rest =>
    let n := Z.of_nat (nat_of_ascii c) in
    if (48 <=? n) && (n <=? 57)
    then decimal_digits rest (10 * acc + (n - 48)) (S count)
    else None
  end.

Fixpoint split_point (s : string) : string * option string :=
  match s with
  | EmptyString => (EmptyString, None)
  | String c rest =>
    if Ascii.eqb c "." then (EmptyString, Some rest)
    else let '(a, b) := split_point rest in (String c a, b)
  end.

Definition float_of_decimal (s : string) : option spec_float :=
  let '(negative, body) :=
    match s with
    | String "-" r => (true, r)
    | String "+" r => (false, r)
    | _ => (false, s)
    end in
  let sign x := if negative then SFopp x else x in
  if String.eqb body "nan" then Some S754_nan
  else if String.eqb body "inf" then Some (S754_infinity negative)
  else
    let '(int_part, frac_part) := split_point body in
    '(i, ni) ← decimal_digits int_part 0 0;
    '(f, nf) ← decimal_digits (default "" frac_part) i 0;
    if (ni + nf =? 0)%nat || (15 <? ni + nf)%nat then None
    else Some (sign (SFdiv 53 1024 (b64_of_Z f) (b64_of_Z (10 ^ Z.of_nat nf)))).

(** Modelled from the spec: [PROMPTS] ([lightrag/prompt.py]) is not among
    the sources; the verifier is invoked "with a comparison of the two
    original prompts", here the two prompts one after the other. *)
Definition similarity_check_prompt (original_prompt cached_prompt : string) : string :=
  original_prompt +:+ " / " +:+ cached_prompt.

(** An entry as [save_to_cache] writes it for the embedding
    [[0.0, 0.5, 1.0]], and one whose payload lost a byte. *)
Definition cached_entry : CacheEntry spec_float :=
  {| ce_return := Val "cached answer";
     ce_cache_type := Val "query";
     ce_embedding := Val "0080ff";
     ce_embedding_shape := Val 3%nat;
     ce_embedding_min := Val (b64 0 0);
     ce_embedding_max := Val (b64 1 0);
     ce_original_prompt := Val "what is a proof" |}.

Definition malformed_entry : CacheEntry spec_float :=
  {| ce_return := Val "stale answer";
     ce_cache_type := Val "query";
     ce_embedding := Val "0080";
     ce_embedding_shape := Val 3%nat;
     ce_embedding_min := Val (b64 0 0);
     ce_embedding_max := Val (b64 1 0);
     ce_original_prompt := Val "what is a lemma" |}.

Definition query_embedding : list spec_float := [b64 0 0; b64 1 (-1); b64 1 0].

(** A configuration with the embedding cache on, threshold one half. *)
Definition semantic_config (use_llm_check : bool) (llm : option (string -> llm_reply))
    : GlobalConfig spec_float :=
  {| enable_llm_cache := true;
     enable_llm_cache_for_entity_extract := true;
     embedding_cache_config :=
       Some {| cfg_enabled := true;
               cfg_similarity_threshold := b64 1 (-1);
               cfg_use_llm_check := use_llm_check |};
     llm_model_func := llm |}.

Definition bucket_store (use_llm_check : bool) (llm : option (string -> llm_reply))
    : KVStorage spec_float (gmap string (bucket spec_float)) :=
  ModeCache (semantic_config use_llm_check llm) (fun _ => query_embedding).

Definition pg_store : KVStorage spec_float PgCache :=
  PGKVStorage (semantic_config false None) (fun _ => query_embedding).

Definition empty_table : PgCache := {| pg_table := ∅; pg_now := 0 |}.

Definition answer_data : CacheData (F:=spec_float) :=
  {| cd_args_hash := "h1";
     cd_content := Text "an answer";
     cd_prompt := "a question";
     cd_quantized := None;
     cd_min_val := None;
     cd_max_val := None;
     cd_mode := "local";
     cd_cache_type := "query" |}.

(** The state in which the records of [A] are processed, and the one
    record [pair_ab] has for it. *)
Definition node_a : KnowledgeGraphNode := start_node_of (entity "A").

Definition state_a : bfs_state := visit node_a None (set_queue [] (initial_state node_a)).

Definition record_ab : NeighborRecord :=
  {| rec_r := {| rel_id := 1; rel_type := "DIRECTED"; rel_start := 0; rel_end := 0;
                 rel_properties := [] |};
     rec_b := entity "B"; rec_edge_id := 1; rec_target_id := 0 |}.

(** Rows of the Postgres data query: a path with its node and edge
    lists, returned twice. *)
Definition path_row : PgRow :=
  {| row_n := Items [Some {| v_id := Some 1; v_properties := Some [("entity_id", "A")] |};
                     Some {| v_id := Some 2; v_properties := Some [("entity_id", "B")] |}];
     row_r := Items [Some {| ed_id := Some 7; ed_start_id := Some 1; ed_end_id := Some 2;
                             ed_properties := Some [] |}] |}.

(** ** Reading the result of [_robust_fallback] *)

(** [hops g start d nd]: [nd] is reached from [start] along [d] records of
    the neighbour query, each among those fetched for the node before. *)
Inductive hops (g : GraphView) (start : KnowledgeGraphNode) : Z -> KnowledgeGraphNode -> Prop :=
| hops_start : hops g start 0 start
| hops_step (d : Z) (p : KnowledgeGraphNode) (r : NeighborRecord) :
    hops g start d p -> r ∈ fetched g (n_id p) -> hops g start (d + 1) (record_node r).

(** Queue items carry no edge. *)
Definition queue_plain (st : bfs_state) : Prop :=
  forall nd ed d, (nd, ed, d) ∈ queue st -> ed = None.

(** Nodes in the result, and nodes waiting in the queue with their depth,
    are that many hops from the start. *)
Definition within_depth (g : GraphView) (start : KnowledgeGraphNode) (max_depth : Z)
    (st : bfs_state) : Prop :=
  (forall nd, nd ∈ nodes (bfs_result st) ->
     exists d, 0 <= d <= max_depth /\ hops g start d nd) /\
  (forall nd ed d, (nd, ed, d) ∈ queue st -> 0 <= d /\ hops g start d nd).

(** The unordered pair of entity ids an edge joins. *)
Definition pair_of (ed : KnowledgeGraphEdge) : string * string :=
  sorted_pair (e_source ed) (e_target ed).

Definition one_edge_per_pair (st : bfs_state) : Prop :=
  queue_plain st /\
  NoDup (pair_of <$> edges (bfs_result st)) /\
  (forall ed, ed ∈ edges (bfs_result st) -> pair_of ed ∈ visited_edge_pairs st).

(** Every edge starts at a visited node and ends at a visited node or at
    one still waiting in the queue, within the depth limit. *)
Definition endpoints_known (max_depth : Z) (st : bfs_state) : Prop :=
  queue_plain st /\
  (forall x, x ∈ visited_nodes st <-> x ∈ n_id <$> nodes (bfs_result st)) /\
  (forall ed, ed ∈ edges (bfs_result st) ->
     e_source ed ∈ visited_nodes st /\
     (e_target ed ∈ visited_nodes st \/
      exists nd d, (nd, None, d) ∈ queue st /\ n_id nd = e_target ed /\ d <= max_depth)).

(** A centre [A] with the two neighbours [B] and [C]. *)
Definition star : GraphView :=
  store_view ["A"; "B"; "C"] [(1, "A", "B"); (2, "A", "C")].

(** ** Reading the result of the query path *)

(** While a record is assembled, the ids in the result are the seen ids. *)
Definition ids_are_seen (a : assembly) : Prop :=
  (forall x, x ∈ n_id <$> nodes (asm_result a) <->
             exists z, z ∈ seen_nodes a /\ x = pretty z) /\
  (forall x, x ∈ e_id <$> edges (asm_result a) <->
             exists z, z ∈ seen_edges a /\ x = pretty z).

(** A store with APOC: two nodes, the first listed twice, and the
    relationship between them. *)
Definition apoc_record : SubgraphRecord :=
  {| node_info := [ {| neo_id := 10; neo_entity_id := Some "A"; neo_properties := [] |};
                    {| neo_id := 11; neo_entity_id := Some "B"; neo_properties := [] |};
                    {| neo_id := 10; neo_entity_id := Some "A"; neo_properties := [] |} ];
     relationships := [ {| rel_id := 5; rel_type := "DIRECTED"; rel_start := 10;
                           rel_end := 11; rel_properties := [] |} ];
     total_nodes := 2 |}.

Definition apoc_session : Neo4jSession :=
  {| count_query := Single (Some 2);
     main_query := fun _ => Single (Some apoc_record);
     full_query := fun _ _ => Single (Some apoc_record);
     limited_query := fun _ _ _ => Single (Some apoc_record);
     session_view := pair_ab |}.

(** ** [use_llm_func_with_cache] ([lightrag/utils.py]) *)

(** A chat message, [{"role": ..., "content": ...}]. *)
Record message := {
  msg_role : string;
  msg_content : string
}.

(** [statistic_data], the counters of the module. *)
Record Statistics := {
  llm_call : Z;
  llm_cache : Z;
  embed_call : Z
}.

Definition count_llm_cache (s : Statistics) : Statistics :=
  {| llm_call := llm_call s; llm_cache := llm_cache s + 1; embed_call := embed_call s |}.

Definition count_llm_call (s : Statistics) : Statistics :=
  {| llm_call := llm_call s + 1; llm_cache := llm_cache s; embed_call := embed_call s |}.

(** The keyword arguments handed to the LLM function: a key is present
    when its field is [Some]. *)
Record LlmKwargs := {
  kw_history_messages : option (list message);
  kw_max_tokens : option Z
}.

(** [if history_messages:] on an optional list. *)
Definition nonempty {A : Type} (o : option (list A)) : bool :=
  match o with
  | Some (_ :: _) => true
  | _ => false
  end.

Definition llm_kwargs (history_messages : option (list message)) (max_tokens : option Z)
    : LlmKwargs :=
  {| kw_history_messages := if nonempty history_messages then history_messages else None;
     kw_max_tokens := max_tokens |}.

Definition newline : string := String (ascii_of_nat 10) EmptyString.

Section LlmCache.
Context {F S : Type} `{Arith F} `{Sqrt F}.
Variable float_of_reply : string -> option F.
Variable similarity_check : string -> string -> string.
(** [json.dumps(history_messages, ensure_ascii=False)] *)
Variable json_dumps : list message -> string.
(** [compute_args_hash] of one string: the hex MD5 digest of it. *)
Variable compute_args_hash : string -> string.

Definition llm_prompt (input_text : string) (history_messages : option (list message))
  : string :=
if nonempty history_messages
then json_dumps (default [] history_messages) +:+ newline +:+ input_text
else input_text.

Definition use_llm_func_with_cache (input_text : string)
  (use_llm_func : string -> LlmKwargs -> result string)
  (llm_response_cache : option (KVStorage F S))
  (max_tokens : option Z) (history_messages : option (list message))
  (cache_type : string) (st : S) (stats : Statistics)
  : S * Statistics * result string :=
match llm_response_cache with
| Some kv =>
  let _prompt := llm_prompt input_text history_messages in
  let arg_hash := compute_args_hash _prompt in
  match handle_cache float_of_reply similarity_check (Some kv) st arg_hash _prompt
                     "default" (Some cache_type) with
  | Raise e => (st, stats, Raise e)
  | Ok (cached_return, _) =>
    if truthy cached_return
    then (st, count_llm_cache stats, Ok (fstr cached_return))
    else
      let stats := count_llm_call stats in
      match use_llm_func input_text (llm_kwargs history_messages max_tokens) with
      | Raise e => (st, stats, Raise e)
      | Ok res =>
        let cache_data :=
          {| cd_args_hash := arg_hash;
             cd_content := Text res;
             cd_prompt := _prompt;
             cd_quantized := None;
             cd_min_val := None;
             cd_max_val := None;
             cd_mode := "default";
             cd_cache_type := cache_type |} in
        match save_to_cache (Some kv) st cache_data with
        | (st', Raise e) => (st', stats, Raise e)
        | (st', Ok _) => (st', stats, Ok res)
        end
      end
  end
| None =>
  (st, stats, use_llm_func input_text (llm_kwargs history_messages max_tokens))
end.
End LlmCache.

(** A prompt that was answered and saved under the mode ["local"]. *)
Definition saved_table : PgCache :=
  (save_to_cache (Some pg_store) empty_table answer_data).1.

Definition no_statistics : Statistics := {| llm_call := 0; llm_cache := 0; embed_call := 0 |}.


(** [PGKVStorage] under a configuration with the response cache on and
    the embedding cache off. *)
Definition plain_config : GlobalConfig spec_float :=
  {| enable_llm_cache := true;
     enable_llm_cache_for_entity_extract := true;
     embedding_cache_config := None;
     llm_model_func := None |}.

Definition plain_pg_store : KVStorage spec_float PgCache :=
  PGKVStorage plain_config (fun _ => query_embedding).

(** A first call that reaches the LLM, on an empty table; the digest is
    stood for by the string itself. *)
Definition first_call : PgCache * Statistics * result string :=
  use_llm_func_with_cache float_of_decimal similarity_check_prompt
    (fun _ => "[]") (fun s => s) "a question" (fun _ _ => Ok "an answer")
    (Some pg_store) None None "extract" empty_table no_statistics.

(** ** List helpers ([lightrag/utils.py]) *)

Section Truncate.
Context {A : Type}.
(** [key], and the tokenizer behind [encode_string_by_tiktoken]. *)
Variable key : A -> string.
Variable encode_string_by_tiktoken : string -> list Z.

(** [for i, data in enumerate(list_data)] from index [i] on, with [tokens]
  counted so far. *)
Fixpoint truncate_from (list_data : list A) (max_token_size : Z) (tokens : Z) (i : nat)
  (rest : list A) : list A :=
match rest with
| [] => list_data
| data :: rest' =>
  let tokens := tokens + Z.of_nat (length (encode_string_by_tiktoken (key data))) in
  if tokens >? max_token_size then take i list_data
  else truncate_from list_data max_token_size tokens (S i) rest'
end.

Definition truncate_list_by_token_size (list_data : list A) (max_token_size : Z) : list A :=
if max_token_size <=? 0 then []
else truncate_from list_data max_token_size 0 0 list_data.

(** The tokens of a list of items. *)
Definition token_total (l : list A) : Z :=
foldr (fun data n => Z.of_nat (length (encode_string_by_tiktoken (key data))) + n) 0 l.
End Truncate.








(** ** [TokenTracker] *)






(** ** The codec in exact arithmetic, to half a step *)


Definition history_example : list message :=
  [ {| msg_role := "user"; msg_content := "q1" |};
    {| msg_role := "assistant"; msg_content := "a1" |};
    {| msg_role := "user"; msg_content := "q2" |};
    {| msg_role := "assistant"; msg_content := "{'high_level_keywords': []}" |};
    {| msg_role := "assistant"; msg_content := "a2" |} ].


(** ** Where a cache hit comes from *)

(** The best match [b] was taken from an entry of [mode_cache]: one of
    the requested cache type, well formed, with the similarity and the
    response that [b] records. *)
Definition taken_from {F : Type} `{Arith F} `{Sqrt F} (cache_type : option string)
    (current_embedding : list F) (mode_cache : bucket F) (b : best) : Prop :=
  exists cache_id entry payload raw min_val max_val similarity,
    (cache_id, entry) ∈ mode_cache /\
    (truthy cache_type = true -> get (ce_cache_type entry) = cache_type) /\
    ce_embedding entry = Val payload /\ fromhex payload = Ok raw /\
    ce_embedding_shape entry = Val (length raw) /\
    ce_embedding_min entry = Val min_val /\ ce_embedding_max entry = Val max_val /\
    cosine_similarity current_embedding (dequantize_embedding raw min_val max_val 8)
    = Ok similarity /\
    best_similarity b = similarity /\
    item (ce_return entry) = Ok (best_response b) /\
    best_cache_id b = Some cache_id.

(** ** The shape of a Postgres result *)

(** A node labelled with the [entity_id] among its properties. *)
Definition labelled (nd : KnowledgeGraphNode) : Prop :=
  exists entity_id,
    assoc "entity_id" (n_properties nd) = Some entity_id /\
    n_labels nd = [Some entity_id].

Set Warnings "-clear-no-such-hyp".

(** * Lists that grow at the end *)

Lemma elem_of_fmap_snoc {A B} (f : A -> B) (l : list A) (a : A) (x : B) :
  x ∈ f <$> (l ++ [a]) <-> x ∈ f <$> l \/ x = f a.
Proof. rewrite fmap_app, elem_of_app. simpl. by rewrite list_elem_of_singleton. Qed.

Lemma NoDup_fmap_snoc {A B} (f : A -> B) (l : list A) (a : A) :
  NoDup (f <$> l) -> f a ∉ f <$> l -> NoDup (f <$> (l ++ [a])).
Proof.
  intros Hl Ha. rewrite fmap_app. apply NoDup_app; repeat split; [done | | apply NoDup_singleton].
  intros x Hx ->%list_elem_of_singleton. done.
Qed.

(** * Properties of the breadth-first extraction *)

Section Fallback.
Variables (g : GraphView) (max_depth max_nodes : Z).

(** ** What one neighbour record can change *)

Ltac record_cases :=
  unfold process_record;
  repeat (case_bool_decide || case_match); simpl.

Lemma process_record_frame cur d st r :
  let st' := process_record max_depth cur d st r in
  nodes (bfs_result st') = nodes (bfs_result st) /\
  is_truncated (bfs_result st') = is_truncated (bfs_result st) /\
  visited_nodes st' = visited_nodes st.
Proof. record_cases; auto. Qed.

Lemma process_record_queue cur d st r :
  exists l, queue (process_record max_depth cur d st r) = queue st ++ l /\
            (length l <= 1)%nat.
Proof.
  record_cases;
    first [ by eexists; split; [reflexivity | simpl; lia]
          | by exists []; rewrite app_nil_r; split; [reflexivity | simpl; lia] ].
Qed.

Lemma records_frame cur d rs st :
  let st' := foldl (process_record max_depth cur d) st rs in
  nodes (bfs_result st') = nodes (bfs_result st) /\
  is_truncated (bfs_result st') = is_truncated (bfs_result st) /\
  visited_nodes st' = visited_nodes st.
Proof.
  revert st; induction rs as [|r rs IH]; intros st; simpl; [auto|].
  destruct (IH (process_record max_depth cur d st r)) as (-> & -> & ->).
  apply process_record_frame.
Qed.

Lemma records_queue cur d rs st :
  (length (queue (foldl (process_record max_depth cur d) st rs))
   <= length (queue st) + length rs)%nat.
Proof.
  revert st; induction rs as [|r rs IH]; intros st; simpl; [lia|].
  etransitivity; [apply IH|].
  destruct (process_record_queue cur d st r) as (l & -> & Hl).
  rewrite length_app. lia.
Qed.

(** ** The loop ends within [bfs_fuel] passes *)

Lemma visit_frame cur ed st :
  let st' := visit cur ed st in
  nodes (bfs_result st') = nodes (bfs_result st) ++ [cur] /\
  is_truncated (bfs_result st') = is_truncated (bfs_result st) /\
  visited_nodes st' = visited_nodes st ∪ {[ n_id cur ]} /\
  visited_edge_pairs st' = visited_edge_pairs st /\
  queue st' = queue st.
Proof. unfold visit. destruct ed; [case_bool_decide|]; simpl; auto. Qed.

Lemma size_visit cur ed st :
  n_id cur ∉ visited_nodes st ->
  size (visited_nodes (visit cur ed st)) = S (size (visited_nodes st)).
Proof.
  intros Hin. destruct (visit_frame cur ed st) as (_ & _ & -> & _).
  rewrite size_union, size_singleton by set_solver. lia.
Qed.

Lemma loop_body_passes item rest st st' :
  Z.of_nat (size (visited_nodes st)) < max_nodes ->
  queue st = item :: rest ->
  loop_body g max_depth max_nodes item (set_queue rest st) = (st', false) ->
  (passes_left max_nodes st' < passes_left max_nodes st)%nat.
Proof.
  intros Hlt Hq. unfold loop_body, passes_left.
  destruct item as [[cur ed] d]. rewrite Hq.
  case_bool_decide as Hin;
    [intros [= <-]; cbn [queue set_queue visited_nodes length]; lia|].
  case_match; [intros [= <-]; cbn [queue set_queue visited_nodes length]; lia|].
  pose proof (size_visit cur ed _ Hin) as Hsz.
  destruct (visit_frame cur ed (set_queue rest st)) as (_ & _ & _ & _ & Hq1).
  set (st1 := visit cur ed (set_queue rest st)) in *.
  case_match eqn:Hge; [discriminate|]. intros [= <-].
  destruct (records_frame cur d (fetched g (n_id cur)) st1) as (_ & _ & ->).
  pose proof (records_queue cur d (fetched g (n_id cur)) st1) as Hlen.
  unfold fetched in Hlen at 2. rewrite Hq1, length_take in Hlen.
  cbn [queue set_queue visited_nodes] in *. rewrite Hsz in *.
  rewrite Z.geb_leb in Hge. apply Z.leb_gt in Hge.
  change (length ((cur, ed, d) :: rest)) with (S (length rest)).
  replace (Z.to_nat max_nodes - size (visited_nodes st))%nat
    with (S (Z.to_nat max_nodes - S (size (visited_nodes st)))) by lia.
  rewrite Nat.mul_succ_r. lia.
Qed.

Lemma bfs_loop_enough fuel st :
  (passes_left max_nodes st <= fuel)%nat ->
  is_Some (bfs_loop g max_depth max_nodes fuel st).
Proof.
  revert st; induction fuel as [|fuel IH]; intros st Hfuel; simpl.
  - destruct (queue st) eqn:Hq; [eauto|].
    unfold passes_left in Hfuel; rewrite Hq in Hfuel.
    cbn [length] in Hfuel.
    generalize dependent (S fetch_limit * (Z.to_nat max_nodes - size (visited_nodes st)))%nat.
    intros; lia.
  - destruct (queue st) as [|item rest] eqn:Hq; [eauto|].
    destruct (Z.of_nat (size (visited_nodes st)) <? max_nodes) eqn:Hlt; simpl; [|eauto].
    apply Z.ltb_lt in Hlt.
    destruct (loop_body g max_depth max_nodes item (set_queue rest st))
      as [st' []] eqn:Hbody; [eauto|].
    apply IH. pose proof (loop_body_passes item rest st st' Hlt Hq Hbody). lia.
Qed.

Lemma bfs_loop_terminates start_node :
  is_Some (bfs_loop g max_depth max_nodes (bfs_fuel max_nodes) (initial_state start_node)).
Proof.
  apply bfs_loop_enough. unfold passes_left, bfs_fuel.
  cbn [initial_state queue visited_nodes length]. rewrite size_empty. lia.
Qed.

Lemma robust_fallback_total node_label :
  is_Some (_robust_fallback g node_label max_depth max_nodes).
Proof.
  unfold _robust_fallback. destruct (match_entity g node_label); [|eauto].
  destruct (bfs_loop_terminates (start_node_of n)) as [st ->].
  simpl. eauto.
Qed.

(** ** What a record adds *)

Lemma process_record_edges cur d st r :
  let st' := process_record max_depth cur d st r in
  (edges (bfs_result st') = edges (bfs_result st) /\
   visited_edges st' = visited_edges st /\
   visited_edge_pairs st' = visited_edge_pairs st) \/
  (truthy (neo_entity_id (rec_b r)) = true /\
   (pretty (rec_edge_id r) ∉ visited_edges st) /\
   (sorted_pair (n_id cur) (record_target r) ∉ visited_edge_pairs st) /\
   (record_target r ∈ visited_nodes st \/ d < max_depth) /\
   edges (bfs_result st') = edges (bfs_result st) ++ [record_edge cur r] /\
   visited_edges st' = visited_edges st ∪ {[ pretty (rec_edge_id r) ]} /\
   visited_edge_pairs st' =
     visited_edge_pairs st ∪ {[ sorted_pair (n_id cur) (record_target r) ]}).
Proof.
  unfold process_record, record_target, record_edge. cbv zeta.
  case_bool_decide as He; [by left|].
  destruct (truthy _) eqn:Ht; [|by left].
  set (t := fstr (neo_entity_id (rec_b r))).
  set (st1 := if bool_decide (_ ∈ visited_edge_pairs st) then _ else _).
  set (st' := if bool_decide (t ∈ visited_nodes st1) then _ else _).
  assert (edges (bfs_result st') = edges (bfs_result st1) /\
          visited_edges st' = visited_edges st1 /\
          visited_edge_pairs st' = visited_edge_pairs st1) as (-> & -> & ->).
  { subst st'. repeat case_match; simpl; auto. }
  subst st1. case_bool_decide as Hp; [by left|].
  destruct (bool_decide (t ∈ visited_nodes st)) eqn:Hv; simpl.
  - apply bool_decide_eq_true in Hv. right; simpl; auto 10.
  - destruct (d <? max_depth) eqn:Hd; simpl; [|by left].
    right; simpl. apply Z.ltb_lt in Hd. auto 10.
Qed.

Lemma process_record_enqueue cur d st r :
  let st' := process_record max_depth cur d st r in
  queue st' = queue st \/
  (truthy (neo_entity_id (rec_b r)) = true /\
   (record_target r ∉ visited_nodes st) /\
   d < max_depth /\
   queue st' = queue st ++ [(record_node r, None, d + 1)]).
Proof.
  unfold process_record, record_target, record_node. cbv zeta.
  case_bool_decide as He; [by left|].
  destruct (truthy _) eqn:Ht; [|by left].
  set (st1 := if bool_decide (_ ∈ visited_edge_pairs st) then _ else _).
  assert (visited_nodes st1 = visited_nodes st /\ queue st1 = queue st) as [Hv Hq].
  { subst st1. repeat case_match; simpl; auto. }
  rewrite Hv. case_bool_decide as Hin; [by left|].
  destruct (d <? max_depth) eqn:Hd; [|by left].
  right. simpl. rewrite Hq. apply Z.ltb_lt in Hd. auto.
Qed.

(** ** Invariants of the loop *)

Lemma foldl_invariant {A B} (f : A -> B -> A) (P : A -> Prop) l a :
  P a -> (forall a b, b ∈ l -> P a -> P (f a b)) -> P (foldl f a l).
Proof.
  revert a; induction l as [|b l IH]; intros a Ha Hf; simpl; [done|].
  apply IH; [apply Hf; [left | done] | intros; apply Hf; [by right | done]].
Qed.

Lemma bfs_loop_invariant (I : bfs_state -> Prop) :
  (forall st item rest st' b,
      I st -> queue st = item :: rest ->
      Z.of_nat (size (visited_nodes st)) < max_nodes ->
      loop_body g max_depth max_nodes item (set_queue rest st) = (st', b) ->
      I st') ->
  forall fuel st st',
    I st -> bfs_loop g max_depth max_nodes fuel st = Some st' -> I st'.
Proof.
  intros Hbody fuel; induction fuel as [|fuel IH]; intros st st' Hst; simpl.
  - destruct (queue st); [by intros [= <-]|].
    destruct (negb _); [by intros [= <-] | done].
  - destruct (queue st) as [|item rest] eqn:Hq; [by intros [= <-]|].
    destruct (Z.of_nat (size (visited_nodes st)) <? max_nodes) eqn:Hlt; simpl;
      [|by intros [= <-]].
    apply Z.ltb_lt in Hlt.
    destruct (loop_body g max_depth max_nodes item (set_queue rest st))
      as [st1 b] eqn:Hb.
    specialize (Hbody _ _ _ _ _ Hst Hq Hlt Hb).
    destruct b; [by intros [= <-] | by apply IH].
  Qed.

Lemma distinct_ids_visit cur ed st :
  n_id cur ∉ visited_nodes st -> distinct_ids st -> distinct_ids (visit cur ed st).
Proof.
  intros Hin (Hn & Hnv & He & Hev). unfold visit, distinct_ids.
  assert (distinct_ids (append_node cur st)) as (Hn1 & Hnv1 & He1 & Hev1).
  { repeat split; simpl; try done.
    - apply NoDup_fmap_snoc; auto.
    - intros x. rewrite elem_of_fmap_snoc. set_solver. }
  destruct ed as [ed|]; [|done].
  case_bool_decide as Hed; [done|].
  repeat split; simpl; try done.
  - apply NoDup_fmap_snoc; auto.
  - intros x. rewrite elem_of_fmap_snoc. set_solver.
Qed.

Lemma distinct_ids_record cur d st r :
  distinct_ids st -> distinct_ids (process_record max_depth cur d st r).
Proof.
  intros (Hn & Hnv & He & Hev).
  destruct (process_record_frame cur d st r) as (Hnodes & _ & Hvis).
  destruct (process_record_edges cur d st r)
    as [(Hed & Hve & _)|(_ & Hfresh & _ & _ & Hed & Hve & _)];
    unfold distinct_ids; rewrite Hnodes, Hvis, Hed, Hve; repeat split; try done.
  - apply NoDup_fmap_snoc; auto.
  - intros x. rewrite elem_of_fmap_snoc. unfold record_edge; simpl. set_solver.
Qed.

Lemma distinct_ids_body st item rest st' b :
  distinct_ids st ->
  loop_body g max_depth max_nodes item (set_queue rest st) = (st', b) ->
  distinct_ids st'.
Proof.
  intros Hst. unfold loop_body. destruct item as [[cur ed] d].
  case_bool_decide as Hin; [by intros [= <- <-]|].
  case_match; [by intros [= <- <-]|].
  assert (distinct_ids (visit cur ed (set_queue rest st))) as Hadm
    by (by apply distinct_ids_visit).
  case_match; intros [= <- <-]; [done|].
  apply foldl_invariant; [done|]. intros; by apply distinct_ids_record.
Qed.

Lemma robust_fallback_distinct node_label kg :
  _robust_fallback g node_label max_depth max_nodes = Some kg ->
  NoDup (n_id <$> nodes kg) /\ NoDup (e_id <$> edges kg).
Proof.
  unfold _robust_fallback. destruct (match_entity g node_label) as [n|].
  - destruct (bfs_loop _ _ _ _ _) as [st|] eqn:Hloop; [|done]. intros [= <-].
    apply (bfs_loop_invariant distinct_ids) in Hloop.
    + destruct Hloop as (? & _ & ? & _); auto.
    + intros; by eapply distinct_ids_body.
    + repeat split; simpl; try apply NoDup_nil_2; set_solver.
  - intros [= <-]; simpl; split; apply NoDup_nil_2.
Qed.
End Fallback.

(** * Assembly of query results *)

(** ** Neo4j: [seen_nodes] and [seen_edges] *)

Lemma seen_ids_node a node : seen_ids a -> seen_ids (handle_node a node).
Proof.
  intros (Hn & Hnv & He & Hev). unfold handle_node.
  case_bool_decide as Hin; [done|].
  repeat split; simpl; try done.
  - apply NoDup_fmap_snoc; [done|]. simpl.
    intros (z & Heq%(inj pretty) & Hz)%Hnv. by subst.
  - intros x [Hx| ->]%elem_of_fmap_snoc.
    + destruct (Hnv x Hx) as (z & -> & Hz). exists z. set_solver.
    + exists (neo_id node). set_solver.
Qed.

Lemma seen_ids_rel a rel : seen_ids a -> seen_ids (handle_rel a rel).
Proof.
  intros (Hn & Hnv & He & Hev). unfold handle_rel.
  case_bool_decide as Hin; [done|].
  repeat split; simpl; try done.
  - apply NoDup_fmap_snoc; [done|]. simpl.
    intros (z & Heq%(inj pretty) & Hz)%Hev. by subst.
  - intros x [Hx| ->]%elem_of_fmap_snoc.
    + destruct (Hev x Hx) as (z & -> & Hz). exists z. set_solver.
    + exists (rel_id rel). set_solver.
Qed.

Lemma assemble_distinct truncated record :
  NoDup (n_id <$> nodes (assemble truncated record)) /\
  NoDup (e_id <$> edges (assemble truncated record)).
Proof.
  assert (seen_ids (match record with
                    | Some rec =>
                      foldl handle_rel
                        (foldl handle_node
                           {| asm_result := truncated_graph truncated;
                              seen_nodes := ∅; seen_edges := ∅ |} (node_info rec))
                        (relationships rec)
                    | None => {| asm_result := truncated_graph truncated;
                                 seen_nodes := ∅; seen_edges := ∅ |}
                    end)) as (? & _ & ? & _).
  { assert (seen_ids {| asm_result := truncated_graph truncated;
                        seen_nodes := ∅; seen_edges := ∅ |}) as H0.
    { repeat split; simpl; try apply NoDup_nil_2; intros x Hx; by apply elem_of_nil in Hx. }
    destruct record as [rec|]; [|done].
    apply foldl_invariant; [|intros; by apply seen_ids_rel].
    apply foldl_invariant; [done|intros; by apply seen_ids_node]. }
  unfold assemble. by destruct record.
Qed.

Lemma neo4j_total s node_label max_depth max_nodes :
  is_Some (neo4j_get_knowledge_graph s node_label max_depth max_nodes).
Proof.
  unfold neo4j_get_knowledge_graph.
  repeat case_match; eauto using robust_fallback_total.
Qed.

Lemma neo4j_distinct s node_label max_depth max_nodes kg :
  neo4j_get_knowledge_graph s node_label max_depth max_nodes = Some kg ->
  NoDup (n_id <$> nodes kg) /\ NoDup (e_id <$> edges kg).
Proof.
  unfold neo4j_get_knowledge_graph.
  repeat case_match; intros Heq;
    first [ by eapply robust_fallback_distinct
          | simplify_eq;
            first [ apply assemble_distinct | simpl; split; apply NoDup_nil_2 ] ].
Qed.

(** ** Postgres: [nodes_dict] and [edges_dict] *)

Lemma for_each_invariant {A S} (body : S -> A -> result S) (P : S -> Prop) l s s' :
  (forall s x s', P s -> body s x = Ok s' -> P s') ->
  P s -> for_each body l s = Ok s' -> P s'.
Proof.
  intros Hbody. revert s; induction l as [|x l IH]; intros s Hs; simpl.
  - by intros [= <-].
  - destruct (body s x) as [s1|e] eqn:Hb; simpl; [|done]. eauto.
Qed.

Lemma keyed_add {V} (key : V -> string) k v (d : list (string * V)) :
  keyed key d -> dict_has k d = false -> key v = k -> keyed key (dict_add k v d).
Proof.
  intros [Hk Hv] Hin Hkey. unfold dict_add, dict_has in *.
  apply bool_decide_eq_false in Hin. split.
  - by apply NoDup_fmap_snoc.
  - apply Forall_app; split; [done|]. by constructor.
Qed.

Lemma keyed_values {V} (key : V -> string) (d : list (string * V)) :
  keyed key d -> NoDup (key <$> d.*2).
Proof.
  intros [Hk Hv]. replace (key <$> d.*2) with d.*1; [done|].
  induction Hv as [|[k v] d Hkv _ IH]; simpl in *; [done|].
  inversion Hk; subst. f_equal; auto.
Qed.

Lemma pg_node_id node_id props nd : pg_node node_id props = Ok nd -> n_id nd = node_id.
Proof. unfold pg_node. destruct (assoc _ _); simpl; [by intros [= <-] | done]. Qed.

Lemma pg_edge_id edge_id e ed : pg_edge edge_id e = Ok ed -> e_id ed = edge_id.
Proof.
  unfold pg_edge.
  destruct (ed_start_id e), (ed_end_id e), (ed_properties e); simpl; try done.
  by intros [= <-].
Qed.

Lemma keyed_single_node d v d' :
  keyed n_id d -> single_node d v = Ok d' -> keyed n_id d'.
Proof.
  intros Hd. unfold single_node. destruct (v_id v) as [i|]; simpl; [|done].
  destruct (dict_has _ d) eqn:Hhas; [by intros [= <-]|].
  destruct (v_properties v) as [props|]; simpl; [|done].
  destruct (pg_node _ _) as [nd|] eqn:Hnd; simpl; [|done].
  intros [= <-]. apply keyed_add; eauto using pg_node_id.
Qed.

Lemma keyed_list_node d item d' :
  keyed n_id d -> list_node d item = Ok d' -> keyed n_id d'.
Proof.
  intros Hd. unfold list_node.
  destruct item as [v|]; [|by intros [= <-]].
  destruct (v_id v) as [i|]; [|by intros [= <-]].
  destruct (v_properties v) as [props|]; [|by intros [= <-]].
  destruct (dict_has _ d) eqn:Hhas; [by intros [= <-]|].
  destruct (pg_node _ _) as [nd|] eqn:Hnd; simpl; [|done].
  intros [= <-]. apply keyed_add; eauto using pg_node_id.
Qed.

Lemma keyed_single_edge d e d' :
  keyed e_id d -> single_edge d e = Ok d' -> keyed e_id d'.
Proof.
  intros Hd. unfold single_edge. destruct (ed_id e) as [i|]; simpl; [|done].
  destruct (dict_has _ d) eqn:Hhas; [by intros [= <-]|].
  destruct (pg_edge _ _) as [ed|] eqn:Hed; simpl; [|done].
  intros [= <-]. apply keyed_add; eauto using pg_edge_id.
Qed.

Lemma keyed_list_edge d item d' :
  keyed e_id d -> list_edge d item = Ok d' -> keyed e_id d'.
Proof.
  intros Hd. unfold list_edge.
  destruct item as [e|]; [|by intros [= <-]].
  destruct (ed_id e) as [i|]; [|by intros [= <-]].
  destruct (dict_has _ d) eqn:Hhas; [by intros [= <-]|].
  destruct (pg_edge _ _) as [ed|] eqn:Hed; simpl; [|done].
  intros [= <-]. apply keyed_add; eauto using pg_edge_id.
Qed.

Lemma keyed_row acc row acc' :
  keyed n_id acc.1 /\ keyed e_id acc.2 ->
  pg_row acc row = Ok acc' ->
  keyed n_id acc'.1 /\ keyed e_id acc'.2.
Proof.
  destruct acc as [nd ed]. intros [Hn He]. unfold pg_row. simpl in *.
  set (rn := match row_n row with Dict v => _ | Items l => _ | _ => _ end).
  destruct rn as [nd'|] eqn:Hrn; simpl; [|done].
  set (rr := match row_r row with Dict v => _ | Items l => _ | _ => _ end).
  destruct rr as [ed'|] eqn:Hrr; simpl; [|done].
  intros [= <-]. simpl. split.
  - subst rn. destruct (row_n row); try (by injection Hrn as <-).
    + eauto using keyed_single_node.
    + eapply (for_each_invariant list_node); eauto using keyed_list_node.
  - subst rr. destruct (row_r row); try (by injection Hrr as <-).
    + eauto using keyed_single_edge.
    + eapply (for_each_invariant list_edge); eauto using keyed_list_edge.
Qed.

Lemma pg_distinct count_result results max_nodes kg :
  pg_get_knowledge_graph count_result results max_nodes = Ok kg ->
  NoDup (n_id <$> nodes kg) /\ NoDup (e_id <$> edges kg).
Proof.
  unfold pg_get_knowledge_graph.
  destruct (for_each pg_row results ([], [])) as [acc|] eqn:Hacc; simpl; [|done].
  intros [= <-]. simpl.
  apply (for_each_invariant pg_row
           (fun acc => keyed n_id acc.1 /\ keyed e_id acc.2)) in Hacc.
  - destruct Hacc. split; by apply keyed_values.
  - intros; by eapply keyed_row.
  - simpl. repeat split; simpl; try apply NoDup_nil_2; constructor.
Qed.

Section Provenance.
Variables (g : GraphView) (max_depth max_nodes : Z) (start : KnowledgeGraphNode).

Lemma from_record_mono st st' nd :
  nodes (bfs_result st) ⊆ nodes (bfs_result st') ->
  from_record g st nd -> from_record g st' nd.
Proof. intros Hsub (p & r & Hp & Hr & ->). exists p, r. auto. Qed.

Lemma provenance_visit cur st :
  provenance g start st ->
  cur = start \/ from_record g st cur ->
  provenance g start (visit cur None st).
Proof.
  intros (Hn & He & Hq) Hcur. unfold visit.
  assert (nodes (bfs_result st) ⊆ nodes (bfs_result (append_node cur st))) as Hsub
    by (simpl; set_solver).
  split; [|split].
  - simpl. intros nd [Hnd|Hnd%list_elem_of_singleton]%elem_of_app.
    + destruct (Hn nd Hnd); eauto using from_record_mono.
    + subst nd. destruct Hcur; eauto using from_record_mono.
  - simpl. intros ed (p & r & Hp & Hr & ->)%He. exists p, r. set_solver.
  - simpl. intros nd ed d Hin. destruct (Hq nd ed d Hin) as [-> []];
      eauto using from_record_mono.
Qed.

Lemma provenance_record cur d st r :
  cur ∈ nodes (bfs_result st) -> r ∈ fetched g (n_id cur) ->
  provenance g start st ->
  provenance g start (process_record max_depth cur d st r).
Proof.
  intros Hcur Hr (Hn & He & Hq).
  destruct (process_record_frame max_depth cur d st r) as (Hnodes & _ & _).
  assert (forall nd, from_record g st nd ->
                     from_record g (process_record max_depth cur d st r) nd) as Hmono.
  { intros nd. apply from_record_mono. by rewrite Hnodes. }
  split; [|split].
  - rewrite Hnodes. intros nd []%Hn; auto.
  - rewrite Hnodes.
    destruct (process_record_edges max_depth cur d st r)
      as [(-> & _)|(_ & _ & _ & _ & -> & _)]; [done|].
    intros ed [Hed|Hed%list_elem_of_singleton]%elem_of_app; [eauto|].
    subst ed. eauto.
  - intros nd ed d' Hin.
    assert ((nd, ed, d') ∈ queue st \/ (nd, ed, d') = (record_node r, None, d + 1))
      as [Hold|Hnew].
    { destruct (process_record_enqueue max_depth cur d st r)
        as [Heq|(_ & _ & _ & Heq)]; rewrite Heq in Hin; [by left|].
      apply elem_of_app in Hin as [?|?%list_elem_of_singleton]; auto. }
    + destruct (Hq nd ed d' Hold) as [-> []]; auto.
    + injection Hnew as -> -> ->. split; [done|]. right.
      exists cur, r. by rewrite Hnodes.
Qed.

Lemma provenance_body st item rest st' b :
  provenance g start st -> queue st = item :: rest ->
  loop_body g max_depth max_nodes item (set_queue rest st) = (st', b) ->
  provenance g start st'.
Proof.
  intros Hst Hq. destruct item as [[cur ed] d].
  assert (ed = None /\ (cur = start \/ from_record g st cur)) as [-> Hcur].
  { destruct Hst as (_ & _ & Hqueue). apply (Hqueue cur ed d). rewrite Hq. left. }
  assert (provenance g start (set_queue rest st)) as Hpop.
  { destruct Hst as (Hn & He & Hqueue). split; [done|split; [done|]].
    intros nd ed d' Hin. apply (Hqueue nd ed d'). rewrite Hq. by right. }
  unfold loop_body.
  case_bool_decide as Hin; [by intros [= <- <-]|].
  case_match; [by intros [= <- <-]|].
  pose proof (provenance_visit cur _ Hpop Hcur) as Hadm.
  case_match; intros [= <- <-]; [done|].
  apply (foldl_invariant _
           (fun st => provenance g start st /\ cur ∈ nodes (bfs_result st))).
  - split; [done|]. simpl. set_solver.
  - intros st1 r Hr [Hp Hc]. split; [by apply provenance_record|].
    by destruct (process_record_frame max_depth cur d st1 r) as (-> & _).
Qed.

Lemma provenance_initial : provenance g start (initial_state start).
Proof.
  split; [|split]; simpl; try (intros ? []%elem_of_nil).
  intros nd ed d [= -> -> ->]%list_elem_of_singleton. auto.
Qed.

(** ** The truncation flag follows the node count *)

Lemma flag_counts_body st item rest st' b :
  flag_counts max_nodes st -> queue st = item :: rest ->
  Z.of_nat (size (visited_nodes st)) < max_nodes ->
  loop_body g max_depth max_nodes item (set_queue rest st) = (st', b) ->
  flag_counts max_nodes st'.
Proof.
  intros (Hsz & Ht & Hf) Hq Hlt. destruct item as [[cur ed] d].
  unfold loop_body.
  case_bool_decide as Hin; [by intros [= <- <-]|].
  case_match; [by intros [= <- <-]|].
  pose proof (size_visit cur ed _ Hin) as Hsz1.
  destruct (visit_frame cur ed (set_queue rest st)) as (Hn1 & Ht1 & _).
  set (st1 := visit cur ed (set_queue rest st)) in *. simpl in *.
  assert (size (visited_nodes st1) = length (nodes (bfs_result st1))) as Hlen1.
  { rewrite Hsz1, Hn1, length_app. simpl. lia. }
  destruct (is_truncated (bfs_result st)) eqn:Htr; [specialize (Ht eq_refl); lia|].
  case_match eqn:Hge; intros [= <- <-].
  - rewrite Z.geb_leb in Hge. apply Z.leb_le in Hge.
    repeat split; simpl; [done | lia | done].
  - rewrite Z.geb_leb in Hge. apply Z.leb_gt in Hge.
    destruct (records_frame max_depth cur d (fetched g (n_id cur)) st1)
      as (Hn2 & Ht2 & Hv2).
    unfold flag_counts. rewrite Hn2, Ht2, Hv2, Ht1.
    repeat split; [done | done | intros _; left; lia].
Qed.

Lemma flag_counts_initial : flag_counts max_nodes (initial_state start).
Proof. repeat split; simpl; [done | by right]. Qed.
End Provenance.

(** What the fallback returns: where its nodes and edges come from, and
    when it raises the flag. *)
Lemma robust_fallback_provenance g node_label max_depth max_nodes kg :
  _robust_fallback g node_label max_depth max_nodes = Some kg ->
  (forall nd, nd ∈ nodes kg ->
     Some nd = start_node_of <$> match_entity g node_label \/
     exists p r, p ∈ nodes kg /\ r ∈ fetched g (n_id p) /\ nd = record_node r) /\
  (forall ed, ed ∈ edges kg ->
     exists p r, p ∈ nodes kg /\ r ∈ fetched g (n_id p) /\ ed = record_edge p r).
Proof.
  unfold _robust_fallback. destruct (match_entity g node_label) as [n|].
  - destruct (bfs_loop _ _ _ _ _) as [st|] eqn:Hloop; [|done]. intros [= <-].
    apply (bfs_loop_invariant _ _ _ (provenance g (start_node_of n))) in Hloop.
    + destruct Hloop as (Hn & He & _). split; [|done].
      intros nd [->|Hnd]%Hn; [by left | by right].
    + intros; by eapply provenance_body.
    + apply provenance_initial.
  - intros [= <-]; simpl; split; intros ? []%elem_of_nil.
Qed.

Lemma robust_fallback_flag g node_label max_depth max_nodes kg :
  _robust_fallback g node_label max_depth max_nodes = Some kg ->
  (is_truncated kg = true -> Z.of_nat (length (nodes kg)) = max_nodes) /\
  (is_truncated kg = false -> Z.of_nat (length (nodes kg)) < max_nodes \/ nodes kg = []).
Proof.
  unfold _robust_fallback. destruct (match_entity g node_label) as [n|].
  - destruct (bfs_loop _ _ _ _ _) as [st|] eqn:Hloop; [|done]. intros [= <-].
    apply (bfs_loop_invariant _ _ _ (flag_counts max_nodes)) in Hloop.
    + by destruct Hloop as (_ & ? & ?).
    + intros; by eapply flag_counts_body.
    + apply flag_counts_initial.
  - intros [= <-]; simpl; split; [done | by right].
Qed.

(** * IEEE special values in the codec and the similarity *)










(** ** Zero vectors in [cosine_similarity] *)

Lemma zn_mul_l x y : is_zero x -> zero_or_nan (SFmul 53 1024 x y).
Proof. intros [s ->]. destruct y; simpl; unfold zero_or_nan, is_zero; eauto. Qed.

Lemma zn_mul_r x y : is_zero y -> zero_or_nan (SFmul 53 1024 x y).
Proof. intros [s ->]. destruct x; simpl; unfold zero_or_nan, is_zero; eauto. Qed.

Lemma zn_mul_zn_l x y : zero_or_nan x -> zero_or_nan (SFmul 53 1024 x y).
Proof. intros [?| ->]; [by apply zn_mul_l|]. by right. Qed.

Lemma zn_mul_zn_r x y : zero_or_nan y -> zero_or_nan (SFmul 53 1024 x y).
Proof. intros [?| ->]; [by apply zn_mul_r|]. right. by destruct x. Qed.

Lemma zn_add x y : zero_or_nan x -> zero_or_nan y -> zero_or_nan (SFadd 53 1024 x y).
Proof.
  intros [[s ->]| ->] [[s' ->]| ->]; simpl; unfold zero_or_nan, is_zero; eauto.
  destruct s, s'; eauto.
Qed.

Lemma zn_sum l a :
  zero_or_nan a -> Forall zero_or_nan l -> zero_or_nan (foldl (SFadd 53 1024) a l).
Proof.
  intros Ha Hl. revert a Ha. induction Hl as [|x l Hx _ IH]; intros a Ha; simpl; [done|].
  apply IH. by apply zn_add.
Qed.

Lemma zn_div x y : zero_or_nan x -> zero_or_nan y -> SFdiv 53 1024 x y = S754_nan.
Proof. intros [[s ->]| ->] [[s' ->]| ->]; done. Qed.

Lemma zn_sqrt x : zero_or_nan x -> zero_or_nan (SFsqrt 53 1024 x).
Proof. intros [[s ->]| ->]; simpl; unfold zero_or_nan, is_zero; eauto. Qed.

Lemma zn_products_l v1 v2 :
  Forall is_zero v1 -> Forall zero_or_nan (zip_with (SFmul 53 1024) v1 v2).
Proof.
  intros Hv. revert v2. induction Hv as [|x v1 Hx _ IH]; intros [|y v2]; simpl;
    constructor; auto using zn_mul_l.
Qed.

Lemma zn_products_r v1 v2 :
  Forall is_zero v2 -> Forall zero_or_nan (zip_with (SFmul 53 1024) v1 v2).
Proof.
  intros Hv. revert v1. induction Hv as [|y v2 Hy _ IH]; intros [|x v1]; simpl;
    constructor; auto using zn_mul_r.
Qed.

Lemma zn_norm v : Forall is_zero v -> zero_or_nan (norm v).
Proof.
  intros Hv. unfold norm. apply zn_sqrt, zn_sum; [left; by exists false|].
  induction Hv as [|x v Hx _ IH]; simpl; constructor; auto using zn_mul_l.
Qed.

Lemma cosine_zero v1 v2 :
  length v1 = length v2 ->
  Forall is_zero v1 \/ Forall is_zero v2 ->
  cosine_similarity v1 v2 = Ok S754_nan.
Proof.
  intros Hlen Hz. unfold cosine_similarity, dot.
  rewrite Hlen, Nat.eqb_refl. simpl. f_equal. apply zn_div.
  - apply zn_sum; [left; by exists false|].
    destruct Hz; [by apply zn_products_l | by apply zn_products_r].
  - destruct Hz; [apply zn_mul_zn_l | apply zn_mul_zn_r]; by apply zn_norm.
Qed.

(** * The codec in exact arithmetic *)

Section Exact.
Open Scope Q_scope.











End Exact.

(** * Writing the cache *)

Lemma eqb_true (a b : string) : String.eqb a b = true <-> a = b.
Proof. apply String.eqb_eq. Qed.

Lemma eqb_false (a b : string) : String.eqb a b = false <-> a <> b.
Proof. apply String.eqb_neq. Qed.

Lemma dict_get_set {V} (k : string) (v : V) d : dict_get k (dict_set k v d) = Some v.
Proof.
  induction d as [|[k' v'] d IH]; simpl.
  - by rewrite String.eqb_refl.
  - destruct (String.eqb k' k) eqn:Hk; simpl; [by rewrite String.eqb_refl|].
    by rewrite Hk.
Qed.

Lemma dict_get_None {V} (k : string) (d : list (string * V)) :
  dict_get k d = None <-> k ∉ d.*1.
Proof.
  induction d as [|[k' v'] d IH]; simpl.
  - split; [intros _ []%elem_of_nil | done].
  - destruct (String.eqb k' k) eqn:Hk.
    + apply eqb_true in Hk as ->. split; [done|]. intros []. left.
    + apply eqb_false in Hk. rewrite IH, not_elem_of_cons. naive_solver.
Qed.

Lemma dict_set_keys {V} (k : string) (v : V) d :
  NoDup d.*1 -> NoDup (dict_set k v d).*1.
Proof.
  induction d as [|[k' v'] d IH]; simpl; intros Hd.
  - apply NoDup_singleton.
  - inversion Hd as [|? ? Hk' Hd']; subst.
    destruct (String.eqb k' k) eqn:Hk; simpl.
    + apply eqb_true in Hk as ->. by constructor.
    + apply eqb_false in Hk. constructor; [|by apply IH].
      intros Hin. apply Hk'. clear -Hin Hk.
      induction d as [|[k'' v''] d IH]; simpl in *.
      * apply list_elem_of_singleton in Hin. congruence.
      * destruct (String.eqb k'' k) eqn:Hk2; simpl in *.
        -- apply eqb_true in Hk2 as ->.
           apply elem_of_cons in Hin as [?|?]; [congruence | by right].
        -- apply elem_of_cons in Hin as [->|?]; [left | right; auto].
Qed.

(** Saving the same content again finds it and writes nothing. *)
Lemma save_twice {F S : Type} (kv : KVStorage F S) (st st1 : S) (cd : CacheData) :
  lawful kv ->
  save_to_cache (Some kv) st cd = (st1, Ok ()) ->
  save_to_cache (Some kv) st1 cd = (st1, Ok ()).
Proof.
  intros [Hdict Hryw]. unfold save_to_cache.
  destruct (cd_content cd) as [text|]; [|by intros [= <-]].
  destruct (String.eqb text "") eqn:Hempty; [by intros [= <-]|].
  destruct (fetch_mode_cache kv st (cd_mode cd) (cd_args_hash cd))
    as [mode_cache|e] eqn:Hfetch; [|intros [= <-]; by rewrite Hfetch].
  set (unchanged := match dict_get (cd_args_hash cd) mode_cache with
                    | Some existing => bool_decide (get (ce_return existing) = Some text)
                    | None => false
                    end).
  destruct unchanged eqn:Hun.
  - intros [= <-]. rewrite Hfetch. fold unchanged. by rewrite Hun.
  - intros Hup.
    destruct (Hryw st st1 (cd_mode cd) (cd_args_hash cd) mode_cache
                (dict_set (cd_args_hash cd) (new_entry text cd) mode_cache)
                (new_entry text cd) text)
      as (stored & entry' & -> & -> & Hret); try done.
    + apply dict_set_keys. by eapply Hdict.
    + apply dict_get_set.
    + by rewrite bool_decide_eq_true_2.
Qed.

(** ** [PGKVStorage] keeps the contract *)

Section Postgres.
Context {F : Type} (cfg : GlobalConfig F) (embed : string -> list F).

Lemma pg_upsert_item_other mode (st st' : PgCache) (kv : string * CacheEntry F) r h :
  pg_upsert_item mode st kv = (st', r) -> kv.1 <> h ->
  pg_table st' !! (mode, h) = pg_table st !! (mode, h).
Proof.
  destruct kv as [k v]. unfold pg_upsert_item. simpl.
  destruct (item (ce_original_prompt v)); [|by intros [= <-]].
  destruct (item (ce_return v)); [|by intros [= <-]].
  intros [= <- _] Hk. simpl. apply lookup_insert_ne. congruence.
Qed.

Lemma pg_upsert_items_other mode items (st st' : PgCache) r h :
  for_each_st (pg_upsert_item (F:=F) mode) items st = (st', r) -> h ∉ items.*1 ->
  pg_table st' !! (mode, h) = pg_table st !! (mode, h).
Proof.
  revert st. induction items as [|kv items IH]; intros st; simpl.
  - by intros [= <-].
  - rewrite not_elem_of_cons.
    destruct (pg_upsert_item mode st kv) as [st1 [[]|e]] eqn:Hitem.
    + intros Hrest [Hk Hin]. rewrite (IH _ Hrest Hin).
      eapply pg_upsert_item_other; eauto.
    + intros [= <- _] [Hk Hin]. eapply pg_upsert_item_other; eauto.
Qed.

Lemma pg_upsert_items_stored mode items (st st' : PgCache) h entry text :
  NoDup items.*1 ->
  dict_get h items = Some entry -> ce_return entry = Val text ->
  for_each_st (pg_upsert_item (F:=F) mode) items st = (st', Ok ()) ->
  exists row, pg_table st' !! (mode, h) = Some row /\ return_value row = Some text.
Proof.
  revert st. induction items as [|[k v] items IH]; intros st Hnd; [done|].
  inversion Hnd as [|? ? Hk Hnd']; subst.
  cbn [dict_get for_each_st].
  destruct (pg_upsert_item mode st (k, v)) as [st1 r] eqn:Hitem.
  destruct (String.eqb k h) eqn:Hkh.
  - apply eqb_true in Hkh as ->. intros [= ->] Hret.
    unfold pg_upsert_item in Hitem. rewrite Hret in Hitem.
    destruct (item (ce_original_prompt entry)) as [prompt|]; simpl in Hitem;
      injection Hitem as <- <-; [|by intros [=]].
    intros Hrest. rewrite (pg_upsert_items_other _ _ _ _ _ _ Hrest Hk). simpl.
    eexists; split; [apply lookup_insert_eq|]. by destruct (pg_table st !! (mode, h)).
  - intros Hget Hret. destruct r as [[]|e]; [|by intros [=]].
    intros Hrest. by eapply IH.
Qed.

Lemma pg_lawful : lawful (PGKVStorage cfg embed).
Proof.
  split.
  - intros st mode h mc. unfold fetch_mode_cache, PGKVStorage, pg_get_by_mode_and_id. simpl.
    destruct (_ || _); simpl; [done|]. intros [= <-].
    destruct (pg_table st !! (mode, h)); simpl; [apply NoDup_singleton | apply NoDup_nil_2].
  - intros st st' mode h before mc entry text.
    unfold fetch_mode_cache, PGKVStorage, pg_get_by_mode_and_id, pg_upsert. simpl.
    destruct (_ || _); simpl; [done|]. intros _ Hnd Hget Hret.
    destruct (for_each_st (pg_upsert_item mode) mc st) as [st1 [[]|e]] eqn:Hitems;
      [|by intros [=]].
    intros [= <-].
    destruct (pg_upsert_items_stored _ _ _ _ _ _ _ Hnd Hget Hret Hitems)
      as (row & -> & Hrow).
    eexists _, _. split; [reflexivity|]. simpl. rewrite String.eqb_refl.
    split; [reflexivity|]. simpl. by rewrite Hrow.
Qed.
End Postgres.

(** * Reading the cache *)

Lemma for_each_app {A S} (body : S -> A -> result S) l1 l2 s :
  for_each body (l1 ++ l2) s = (s' ← for_each body l1 s; for_each body l2 s').
Proof.
  revert s; induction l1 as [|x l1 IH]; intros s; simpl; [done|].
  destruct (body s x); simpl; [apply IH | done].
Qed.

Section Lookup.
Context {F S : Type} `{Arith F} `{Sqrt F}.
Variable float_of_reply : string -> option F.
Variable similarity_check : string -> string -> string.
Variables (kv : KVStorage F S) (st : S).

(** An entry without an embedding, or of another cache type, is passed
    over. *)
Lemma scan_entry_skips cache_type current_embedding b cache_id (cache_data : CacheEntry F) :
  ce_embedding cache_data = Null \/
  (truthy cache_type = true /\ get (ce_cache_type cache_data) <> cache_type) ->
  scan_entry cache_type current_embedding b (cache_id, cache_data) = Ok b.
Proof.
  unfold scan_entry. intros [Hnull|[-> Hty]].
  - rewrite Hnull. simpl. by destruct (_ && _).
  - by rewrite bool_decide_eq_false_2.
Qed.

(** An entry whose bytes do not fill its stored shape stops the scan. *)
Lemma scan_entry_malformed cache_type current_embedding b cache_id
    (cache_data : CacheEntry F) payload raw d :
  (truthy cache_type = true -> get (ce_cache_type cache_data) = cache_type) ->
  ce_embedding cache_data = Val payload -> fromhex payload = Ok raw ->
  ce_embedding_shape cache_data = Val d -> length raw <> d ->
  scan_entry cache_type current_embedding b (cache_id, cache_data) = Raise ValueError.
Proof.
  intros Hty Hemb Hraw Hshape Hlen. unfold scan_entry.
  assert (truthy cache_type
          && negb (bool_decide (get (ce_cache_type cache_data) = cache_type)) = false)
    as ->.
  { destruct (truthy cache_type); [|done]. by rewrite bool_decide_eq_true_2 by auto. }
  rewrite Hemb. simpl. rewrite Hraw. simpl. rewrite Hshape. simpl.
  unfold reshape. apply Nat.eqb_neq in Hlen. by rewrite Hlen.
Qed.

Lemma lookup_malformed current_embedding similarity_threshold mode use_llm_check
    llm_func original_prompt cache_type before cache_id cache_data after b payload raw d :
  get_by_id kv st mode = Ok (Some (before ++ (cache_id, cache_data) :: after)) ->
  for_each (scan_entry cache_type current_embedding) before no_best = Ok b ->
  (truthy cache_type = true -> get (ce_cache_type cache_data) = cache_type) ->
  ce_embedding cache_data = Val payload -> fromhex payload = Ok raw ->
  ce_embedding_shape cache_data = Val d -> length raw <> d ->
  get_best_cached_response float_of_reply similarity_check kv st current_embedding
    similarity_threshold mode use_llm_check llm_func original_prompt cache_type
  = Raise ValueError.
Proof.
  intros Hget Hbefore Hty Hemb Hraw Hshape Hlen. unfold get_best_cached_response.
  rewrite Hget. simpl.
  destruct (before ++ (cache_id, cache_data) :: after) eqn:Hl;
    [by destruct before|]. rewrite <- Hl.
  rewrite for_each_app, Hbefore. cbn [mbind result_bind for_each].
  by rewrite (scan_entry_malformed _ _ _ _ _ payload raw d).
Qed.

(** Once the best similarity is over the threshold and the check is on,
    the verifier's reply decides alone. *)
Lemma lookup_verified current_embedding similarity_threshold mode llm_func
    original_prompt cache_type mode_cache b :
  get_by_id kv st mode = Ok (Some mode_cache) -> mode_cache <> [] ->
  for_each (scan_entry cache_type current_embedding) mode_cache no_best = Ok b ->
  f_ltb similarity_threshold (best_similarity b) = true ->
  truthy original_prompt = true -> truthy (best_prompt b) = true ->
  is_Some (best_response b) ->
  get_best_cached_response float_of_reply similarity_check kv st current_embedding
    similarity_threshold mode true (Some llm_func) original_prompt cache_type
  = Ok match llm_func (similarity_check (fstr original_prompt) (fstr (best_prompt b))) with
       | LlmRaises => None
       | LlmReturns llm_result =>
         match float_of_reply llm_result with
         | None => None
         | Some llm_similarity =>
           if f_ltb llm_similarity similarity_threshold then None
           else best_response b
         end
       end.
Proof.
  intros Hget Hne Hscan Hbest Horig Hprompt Hresp. unfold get_best_cached_response.
  rewrite Hget. simpl. destruct mode_cache as [|entry rest]; [done|].
  rewrite Hscan. simpl. rewrite Hbest, Horig, Hprompt. simpl.
  rewrite bool_decide_eq_true_2 by done.
  unfold llm_accepts. destruct (llm_func _) as [|text]; [done|].
  destruct (float_of_reply text) as [score|]; [|done].
  destruct (best_prompt b); [|done].
  by destruct (f_ltb score similarity_threshold).
Qed.

(** [handle_cache] hands on what the lookup raises. *)
Lemma handle_cache_raises args_hash prompt mode cache_type cfg q e :
  String.eqb mode "default" = false ->
  enable_llm_cache (global_config kv) = true ->
  embedding_cache_config (global_config kv) = Some cfg -> cfg_enabled cfg = true ->
  quantize_embedding (embedding_func kv prompt) 8 = Ok q ->
  get_best_cached_response float_of_reply similarity_check kv st
    (embedding_func kv prompt) (cfg_similarity_threshold cfg) mode
    (cfg_use_llm_check cfg)
    (if cfg_use_llm_check cfg then llm_model_func (global_config kv) else None)
    (Some prompt) cache_type = Raise e ->
  handle_cache float_of_reply similarity_check (Some kv) st args_hash prompt mode cache_type
  = Raise e.
Proof.
  intros Hmode Hon Hcfg Hen Hq Hraise. unfold handle_cache.
  rewrite Hmode, Hon, Hcfg. simpl. rewrite Hen, Hq. simpl. by rewrite Hraise.
Qed.
End Lookup.

(** * The spec's statements, one by one *)

(** Membership in a concrete set or list, settled by evaluation. *)
Ltac by_evaluation :=
  lazymatch goal with
  | |- ¬ _ => apply (bool_decide_eq_false_1 _); vm_compute; reflexivity
  | |- _ => apply (bool_decide_eq_true_1 _); vm_compute; reflexivity
  end.

(** ** Subgraph extraction *)

(** Scenario A of the spec: the chain A-B-C-D-E from [A], two hops. *)
Example scenario_chain :
  ids_of (_robust_fallback chain5 "A" 2 10) = (["A"; "B"; "C"], ["1"; "2"], false).
Proof. vm_compute. reflexivity. Qed.

(** The flag of the fallback traversal tells that the node count reached
    the limit, not that something was left out. *)
Lemma fallback_flag_at_limit g node_label max_depth max_nodes kg :
  _robust_fallback g node_label max_depth max_nodes = Some kg ->
  nodes kg <> [] ->
  is_truncated kg = true <-> Z.of_nat (length (nodes kg)) = max_nodes.
Proof.
  intros Hkg Hne. destruct (robust_fallback_flag _ _ _ _ _ Hkg) as [Ht Hf].
  split; [exact Ht|]. intros Hlen.
  destruct (is_truncated kg); [done|].
  destruct Hf as [Hlt|Hnil]; [done|lia|done].
Qed.

(** C1: the spec says that a traversal whose reachable set has at most
    [max_nodes] nodes, equality included, returns exactly that set with
    [is_truncated = false]. On the chain A-B-C-D-E the nodes within two
    hops of [A] are A, B and C. With [max_nodes = 3] the fallback
    traversal returns these three nodes and both relationships, and sets
    [is_truncated = true]; with [max_nodes = 4] it returns the same graph
    with the flag off. *)
Theorem C1_exact_fit_is_flagged :
  ids_of (_robust_fallback chain5 "A" 2 3) = (["A"; "B"; "C"], ["1"; "2"], true) /\
  ids_of (_robust_fallback chain5 "A" 2 4) = (["A"; "B"; "C"], ["1"; "2"], false).
Proof. split; vm_compute; reflexivity. Qed.

(** C2, as the spec words it, fails: with [max_depth = 0] the start node
    [A] is itself at the depth limit, its relationship to the unvisited
    [B] is new and its pair is new, and the record leaves the state as it
    was; the traversal ends with [A] alone and no edge. *)
Lemma C2_counterexample :
  fetched pair_ab "A" = [record_ab] /\
  (pretty (rec_edge_id record_ab) ∉ visited_edges state_a) /\
  (sorted_pair (n_id node_a) (record_target record_ab) ∉ visited_edge_pairs state_a) /\
  process_record 0 node_a 0 state_a record_ab = state_a /\
  ids_of (_robust_fallback pair_ab "A" 0 10) = (["A"], [], false).
Proof.
  split; [vm_compute; reflexivity|].
  split; [by_evaluation|]. split; [by_evaluation|].
  split; vm_compute; reflexivity.
Qed.

(** C2, amended: for a node processed at [current_depth = max_depth], a
    record with a new relationship id and a new unordered pair appends its
    edge exactly when the neighbour has already been visited; when it has
    not, the record changes nothing. The neighbour is never enqueued. *)
Theorem C2_edge_at_depth_limit (max_depth : Z) (current_node : KnowledgeGraphNode)
    (st : bfs_state) (record : NeighborRecord) :
  truthy (neo_entity_id (rec_b record)) = true ->
  pretty (rec_edge_id record) ∉ visited_edges st ->
  sorted_pair (n_id current_node) (record_target record) ∉ visited_edge_pairs st ->
  queue (process_record max_depth current_node max_depth st record) = queue st /\
  (record_target record ∈ visited_nodes st ->
     edges (bfs_result (process_record max_depth current_node max_depth st record))
     = edges (bfs_result st) ++ [record_edge current_node record]) /\
  (record_target record ∉ visited_nodes st ->
     process_record max_depth current_node max_depth st record = st).
Proof.
  intros Htruthy Hedge Hpair.
  unfold process_record, record_target, record_edge in *.
  rewrite Htruthy, Z.ltb_irrefl, andb_false_r, orb_false_r.
  rewrite (bool_decide_eq_false_2 _ Hedge), (bool_decide_eq_false_2 _ Hpair).
  destruct (decide (fstr (neo_entity_id (rec_b record)) ∈ visited_nodes st)) as [Hin|Hout].
  - rewrite (bool_decide_eq_true_2 _ Hin). simpl.
    rewrite (bool_decide_eq_true_2 _ Hin). simpl. done.
  - rewrite (bool_decide_eq_false_2 _ Hout). simpl.
    rewrite (bool_decide_eq_false_2 _ Hout). done.
Qed.

Lemma C2_edge_at_depth_limit_witness :
  queue (process_record 0 node_a 0 state_a record_ab) = queue state_a /\
  (record_target record_ab ∈ visited_nodes state_a ->
     edges (bfs_result (process_record 0 node_a 0 state_a record_ab))
     = edges (bfs_result state_a) ++ [record_edge node_a record_ab]) /\
  (record_target record_ab ∉ visited_nodes state_a ->
     process_record 0 node_a 0 state_a record_ab = state_a).
Proof.
  apply (C2_edge_at_depth_limit 0 node_a state_a record_ab).
  - vm_compute. reflexivity.
  - by_evaluation.
  - by_evaluation.
Defined.

(** The Postgres assembly on a path returned twice. *)
Example pg_rows_twice :
  (fun kg => (n_id <$> nodes kg, e_id <$> edges kg, is_truncated kg))
    <$> pg_get_knowledge_graph [2] [path_row; path_row] 10
  = Ok (["1"; "2"], ["7"], false).
Proof. vm_compute. reflexivity. Qed.

(** C3: whatever the store answers, the graph returned by the Neo4j
    extraction (its query path and its fallback traversal both return one)
    and every graph returned by the Postgres extraction list each node id
    once and each edge id once. *)
Theorem C3_no_duplicate_ids (s : Neo4jSession) (g : GraphView)
    (count_result : list Z) (results : list PgRow)
    (node_label : string) (max_depth max_nodes : Z) :
  (exists kg, neo4j_get_knowledge_graph s node_label max_depth max_nodes = Some kg /\
              NoDup (n_id <$> nodes kg) /\ NoDup (e_id <$> edges kg)) /\
  (exists kg, _robust_fallback g node_label max_depth max_nodes = Some kg /\
              NoDup (n_id <$> nodes kg) /\ NoDup (e_id <$> edges kg)) /\
  (forall kg, pg_get_knowledge_graph count_result results max_nodes = Ok kg ->
              NoDup (n_id <$> nodes kg) /\ NoDup (e_id <$> edges kg)).
Proof.
  split; [|split].
  - destruct (neo4j_total s node_label max_depth max_nodes) as [kg Hkg].
    exists kg. split; [done|]. by eapply neo4j_distinct.
  - destruct (robust_fallback_total g max_depth max_nodes node_label) as [kg Hkg].
    exists kg. split; [done|]. by eapply robust_fallback_distinct.
  - intros kg Hkg. by eapply pg_distinct.
Qed.

(** C10, as the spec words it, fails: [A] has 1001 relationships and the
    last one, to [B], is not among the 1000 fetched for [A]; it is still
    returned, because [B] is reached through [N] and lists it too. *)
Lemma C10_counterexample :
  (exists record, match_neighbors hub "A" !! 1000%nat = Some record /\
                  rec_edge_id record = 1001) /\
  (1001 ∉ rec_edge_id <$> fetched hub "A") /\
  ids_of (_robust_fallback hub "A" 2 10) = (["A"; "N"; "B"], ["1"; "1002"; "1001"], false).
Proof.
  split; [eexists; split; vm_compute; reflexivity|].
  split; [by_evaluation|]. vm_compute. reflexivity.
Qed.

(** C10, amended: every returned edge was built, for a returned node,
    from one of the first 1000 records of that node's neighbour query, so
    a node contributes at most 1000 relationships of its own; a
    relationship past the first 1000 can still come from its other end.
    The flag is set only when the node count has reached [max_nodes]. *)
Theorem C10_fetch_cap (g : GraphView) (node_label : string) (max_depth max_nodes : Z)
    (kg : KnowledgeGraph) :
  _robust_fallback g node_label max_depth max_nodes = Some kg ->
  (forall ed, ed ∈ edges kg ->
     exists p record, p ∈ nodes kg /\ record ∈ take 1000 (match_neighbors g (n_id p)) /\
                      ed = record_edge p record) /\
  (is_truncated kg = true -> Z.of_nat (length (nodes kg)) = max_nodes).
Proof.
  intros Hkg. split.
  - apply (robust_fallback_provenance _ _ _ _ _ Hkg).
  - apply (robust_fallback_flag _ _ _ _ _ Hkg).
Qed.

Lemma C10_fetch_cap_witness :
  (forall ed, ed ∈ edges (default empty_graph (_robust_fallback pair_ab "A" 1 10)) ->
     exists p record,
       p ∈ nodes (default empty_graph (_robust_fallback pair_ab "A" 1 10)) /\
       record ∈ take 1000 (match_neighbors pair_ab (n_id p)) /\
       ed = record_edge p record) /\
  (is_truncated (default empty_graph (_robust_fallback pair_ab "A" 1 10)) = true ->
     Z.of_nat (length (nodes (default empty_graph (_robust_fallback pair_ab "A" 1 10))))
     = 10).
Proof.
  apply (C10_fetch_cap pair_ab "A" 1 10). vm_compute. reflexivity.
Defined.

(** ** The embedding codec and the similarity *)

(** Scenario D of the spec, the codec half: the vector [[0.0, 0.5, 1.0]]
    is stored as the bytes 0, 128, 255 with its minimum and maximum. *)
Example scenario_quantize :
  quantize_embedding query_embedding 8 = Ok (Some [0; 128; 255], b64 0 0, b64 1 0).
Proof. vm_compute. reflexivity. Qed.







(** C8, as the spec words it, fails: the similarity of [[0.0, 0.0]] and
    [[1.0, 2.0]] is the quotient of a zero dot product by a zero product
    of norms, which is NaN and not zero. *)
Lemma C8_counterexample :
  dot [b64 0 0; b64 0 0] [b64 1 0; b64 1 1] = Ok (S754_zero false) /\
  f_mul (norm [b64 0 0; b64 0 0]) (norm [b64 1 0; b64 1 1]) = S754_zero false /\
  cosine_similarity [b64 0 0; b64 0 0] [b64 1 0; b64 1 1] = Ok S754_nan.
Proof. repeat split; vm_compute; reflexivity. Qed.

(** C8, amended: for two vectors of the same length one of which has
    only zero components, [cosine_similarity] returns NaN. *)
Theorem C8_cosine_of_zero_vector (v1 v2 : list spec_float) :
  length v1 = length v2 ->
  Forall is_zero v1 \/ Forall is_zero v2 ->
  cosine_similarity v1 v2 = Ok S754_nan.
Proof. apply cosine_zero. Qed.

Lemma C8_cosine_of_zero_vector_witness :
  cosine_similarity [b64 1 0; b64 1 1] [S754_zero false; S754_zero true] = Ok S754_nan.
Proof.
  apply (C8_cosine_of_zero_vector [b64 1 0; b64 1 1] [S754_zero false; S754_zero true]).
  - reflexivity.
  - right. repeat constructor; eexists; reflexivity.
Defined.

(** ** The response cache *)

(** Scenario D of the spec: with the embedding cache on and nothing
    stored, [handle_cache] reports a miss and hands back the bytes,
    minimum and maximum of the prompt's embedding. *)
Example scenario_empty_bucket :
  handle_cache float_of_decimal similarity_check_prompt
    (Some (bucket_store false None)) (∅ : gmap string (bucket spec_float))
    "h9" "what is a proof?" "local" (Some "query")
  = Ok (None, Some (Some [0; 128; 255], b64 0 0, b64 1 0)).
Proof. vm_compute. reflexivity. Qed.

(** C4: on a storage that returns dicts and reads back what was written,
    a save that went through leaves a state in which saving the same data
    again returns without any write: the state is the same afterwards. *)
Theorem C4_save_twice_is_noop {F S : Type} (hashing_kv : KVStorage F S) (st st1 : S)
    (cache_data : CacheData) :
  lawful hashing_kv ->
  save_to_cache (Some hashing_kv) st cache_data = (st1, Ok ()) ->
  save_to_cache (Some hashing_kv) st1 cache_data = (st1, Ok ()).
Proof. apply save_twice. Qed.

Lemma C4_save_twice_is_noop_witness :
  save_to_cache (Some pg_store)
    (save_to_cache (Some pg_store) empty_table answer_data).1 answer_data
  = ((save_to_cache (Some pg_store) empty_table answer_data).1, Ok ()).
Proof.
  apply (C4_save_twice_is_noop pg_store empty_table
           (save_to_cache (Some pg_store) empty_table answer_data).1 answer_data).
  - apply pg_lawful.
  - vm_compute. reflexivity.
Defined.

(** C5, as the spec words it, fails: with the threshold one half and a
    verifier that answers ["0.5"], the verifier's score does not exceed
    the threshold, and the cached response is returned. *)
Lemma C5_counterexample :
  float_of_decimal "0.5" = Some (b64 1 (-1)) /\
  f_ltb (b64 1 (-1)) (b64 1 (-1)) = false /\
  get_best_cached_response float_of_decimal similarity_check_prompt
    (bucket_store true None) {[ "local" := [("h2", cached_entry)] ]}
    query_embedding (b64 1 (-1)) "local" true (Some (fun _ => LlmReturns "0.5"))
    (Some "what is a proof?") (Some "query")
  = Ok (Some "cached answer").
Proof. repeat split; vm_compute; reflexivity. Qed.

(** C5, amended: when the best entry's cosine similarity exceeds the
    threshold and the verifier is consulted, the outcome is decided by
    the verifier alone: a miss when it raises, when its reply is not a
    number, or when its score is below the threshold; the cached
    response otherwise, a score equal to the threshold included. *)
Theorem C5_verifier_decides {F S : Type} `{Arith F} `{Sqrt F}
    (float_of_reply : string -> option F)
    (similarity_check : string -> string -> string)
    (kv : KVStorage F S) (st : S) (current_embedding : list F)
    (similarity_threshold : F) (mode : string) (llm_func : string -> llm_reply)
    (original_prompt cache_type : option string) (mode_cache : bucket F) (b : best) :
  get_by_id kv st mode = Ok (Some mode_cache) -> mode_cache <> [] ->
  for_each (scan_entry cache_type current_embedding) mode_cache no_best = Ok b ->
  f_ltb similarity_threshold (best_similarity b) = true ->
  truthy original_prompt = true -> truthy (best_prompt b) = true ->
  is_Some (best_response b) ->
  get_best_cached_response float_of_reply similarity_check kv st current_embedding
    similarity_threshold mode true (Some llm_func) original_prompt cache_type
  = Ok match llm_func (similarity_check (fstr original_prompt) (fstr (best_prompt b))) with
       | LlmRaises => None
       | LlmReturns llm_result =>
         match float_of_reply llm_result with
         | None => None
         | Some llm_similarity =>
           if f_ltb llm_similarity similarity_threshold then None
           else best_response b
         end
       end.
Proof. apply lookup_verified. Qed.

Lemma C5_verifier_decides_witness :
  get_best_cached_response float_of_decimal similarity_check_prompt
    (bucket_store true None) {[ "local" := [("h2", cached_entry)] ]}
    query_embedding (b64 1 (-1)) "local" true (Some (fun _ => LlmReturns "0.49"))
    (Some "what is a proof?") (Some "query")
  = Ok None.
Proof.
  rewrite (C5_verifier_decides float_of_decimal similarity_check_prompt
             (bucket_store true None) {[ "local" := [("h2", cached_entry)] ]}
             query_embedding (b64 1 (-1)) "local" (fun _ => LlmReturns "0.49")
             (Some "what is a proof?") (Some "query") [("h2", cached_entry)]
             {| best_similarity := S754_finite false 9007188190267402 (-53);
                best_response := Some "cached answer";
                best_prompt := Some "what is a proof";
                best_cache_id := Some "h2" |}).
  - vm_compute. reflexivity.
  - vm_compute. reflexivity.
  - discriminate.
  - vm_compute. reflexivity.
  - vm_compute. reflexivity.
  - reflexivity.
  - reflexivity.
  - eexists. reflexivity.
Defined.

(** C9, as the spec words it, fails: with a stored entry whose payload
    has two bytes for a recorded shape of three ahead of a well-formed
    entry, the lookup raises and the well-formed entry is never looked at;
    [handle_cache] passes the exception on. *)
Lemma C9_counterexample :
  get_best_cached_response float_of_decimal similarity_check_prompt
    (bucket_store false None)
    {[ "local" := [("h1", malformed_entry); ("h2", cached_entry)] ]}
    query_embedding (b64 1 (-1)) "local" false None
    (Some "what is a proof?") (Some "query")
  = Raise ValueError /\
  get_best_cached_response float_of_decimal similarity_check_prompt
    (bucket_store false None) {[ "local" := [("h2", cached_entry)] ]}
    query_embedding (b64 1 (-1)) "local" false None
    (Some "what is a proof?") (Some "query")
  = Ok (Some "cached answer") /\
  handle_cache float_of_decimal similarity_check_prompt
    (Some (bucket_store false None))
    {[ "local" := [("h1", malformed_entry); ("h2", cached_entry)] ]}
    "h9" "what is a proof?" "local" (Some "query")
  = Raise ValueError.
Proof. repeat split; vm_compute; reflexivity. Qed.

(** C9, amended: when the scan reaches an entry that passes the cache
    type filter and whose payload decodes to a number of bytes other than
    its recorded shape, the lookup raises [ValueError], whatever entries
    follow. *)
Theorem C9_malformed_entry_raises {F S : Type} `{Arith F} `{Sqrt F}
    (float_of_reply : string -> option F)
    (similarity_check : string -> string -> string)
    (kv : KVStorage F S) (st : S) (current_embedding : list F)
    (similarity_threshold : F) (mode : string) (use_llm_check : bool)
    (llm_func : option (string -> llm_reply))
    (original_prompt cache_type : option string)
    (before : bucket F) (cache_id : string) (cache_data : CacheEntry F)
    (after : bucket F) (b : best) (payload : string) (raw : list Z) (d : nat) :
  get_by_id kv st mode = Ok (Some (before ++ (cache_id, cache_data) :: after)) ->
  for_each (scan_entry cache_type current_embedding) before no_best = Ok b ->
  (truthy cache_type = true -> get (ce_cache_type cache_data) = cache_type) ->
  ce_embedding cache_data = Val payload -> fromhex payload = Ok raw ->
  ce_embedding_shape cache_data = Val d -> length raw <> d ->
  get_best_cached_response float_of_reply similarity_check kv st current_embedding
    similarity_threshold mode use_llm_check llm_func original_prompt cache_type
  = Raise ValueError.
Proof. apply lookup_malformed. Qed.

Lemma C9_malformed_entry_raises_witness :
  get_best_cached_response float_of_decimal similarity_check_prompt
    (bucket_store false None)
    {[ "local" := [("h2", cached_entry); ("h1", malformed_entry); ("h3", cached_entry)] ]}
    query_embedding (b64 1 (-1)) "local" false None
    (Some "what is a proof?") (Some "query")
  = Raise ValueError.
Proof.
  apply (C9_malformed_entry_raises float_of_decimal similarity_check_prompt
           (bucket_store false None) _ query_embedding (b64 1 (-1)) "local" false None
           (Some "what is a proof?") (Some "query")
           [("h2", cached_entry)] "h1" malformed_entry [("h3", cached_entry)]
           {| best_similarity := S754_finite false 9007188190267402 (-53);
              best_response := Some "cached answer";
              best_prompt := Some "what is a proof";
              best_cache_id := Some "h2" |}
           "0080" [0; 128] 3%nat).
  - vm_compute. reflexivity.
  - vm_compute. reflexivity.
  - reflexivity.
  - reflexivity.
  - vm_compute. reflexivity.
  - reflexivity.
  - simpl. lia.
Defined.

(** * More on the breadth-first extraction *)

Section Traversal.
Variables (g : GraphView) (max_depth max_nodes : Z).

(** One record, case by case: nothing happens, or the edge is appended
    (new pair, far end visited or within depth), and the far end is
    enqueued exactly when it is unvisited and within depth. *)
Lemma process_record_step cur d st r :
  process_record max_depth cur d st r = st \/
  exists st1,
    (st1 = st \/
     ((sorted_pair (n_id cur) (record_target r) ∉ visited_edge_pairs st) /\
      (record_target r ∈ visited_nodes st \/ d < max_depth) /\
      st1 = add_pair (sorted_pair (n_id cur) (record_target r))
                     (append_edge (record_edge cur r) st))) /\
    ((record_target r ∈ visited_nodes st /\
      process_record max_depth cur d st r = st1) \/
     ((record_target r ∉ visited_nodes st) /\
      ((d < max_depth /\
        process_record max_depth cur d st r =
          set_queue (queue st1 ++ [(record_node r, None, d + 1)]) st1) \/
       (~ d < max_depth /\ process_record max_depth cur d st r = st1)))).
Proof.
  unfold process_record.
  fold (record_target r). fold (record_node r). fold (record_edge cur r).
  destruct (bool_decide (pretty (rec_edge_id r) ∈ visited_edges st)); [by left|].
  destruct (truthy (neo_entity_id (rec_b r))); [|by left]. right.
  set (pair := sorted_pair (n_id cur) (record_target r)).
  set (st1 := if bool_decide (pair ∈ visited_edge_pairs st) then st
              else if bool_decide (record_target r ∈ visited_nodes st)
                      || negb (bool_decide (record_target r ∈ visited_nodes st))
                         && (d <? max_depth)
                   then add_pair pair (append_edge (record_edge cur r) st) else st).
  assert (visited_nodes st1 = visited_nodes st) as Hvis.
  { unfold st1. repeat case_match; done. }
  exists st1. split.
  - unfold st1. case_bool_decide as Hpair; [by left|].
    destruct (decide (record_target r ∈ visited_nodes st)) as [Hin|Hout].
    + rewrite (bool_decide_eq_true_2 _ Hin). simpl. right. auto.
    + rewrite (bool_decide_eq_false_2 _ Hout). simpl.
      destruct (Z.ltb_spec d max_depth); [right; auto | by left].
  - rewrite Hvis.
    destruct (decide (record_target r ∈ visited_nodes st)) as [Hin|Hout].
    + rewrite (bool_decide_eq_true_2 _ Hin). by left.
    + rewrite (bool_decide_eq_false_2 _ Hout). right. split; [done|].
      destruct (Z.ltb_spec d max_depth); [left | right]; split; (done || lia).
Qed.

(** How the loop can end. *)
Lemma loop_body_break item st st' :
  loop_body g max_depth max_nodes item st = (st', true) ->
  is_truncated (bfs_result st') = true.
Proof.
  unfold loop_body. destruct item as [[cur ed] d].
  repeat case_match; intros [= <-]; done.
Qed.

Lemma bfs_loop_exit fuel st st' :
  bfs_loop g max_depth max_nodes fuel st = Some st' ->
  queue st' = [] \/ ~ Z.of_nat (size (visited_nodes st')) < max_nodes \/
  is_truncated (bfs_result st') = true.
Proof.
  revert st; induction fuel as [|fuel IH]; intros st; simpl.
  - destruct (queue st) eqn:Hq; [intros [= <-]; by left|].
    destruct (Z.ltb_spec (Z.of_nat (size (visited_nodes st))) max_nodes); simpl; [done|].
    intros [= <-]. right; left. lia.
  - destruct (queue st) as [|item rest] eqn:Hq; [intros [= <-]; by left|].
    destruct (Z.ltb_spec (Z.of_nat (size (visited_nodes st))) max_nodes); simpl;
      [|intros [= <-]; right; left; lia].
    destruct (loop_body g max_depth max_nodes item (set_queue rest st))
      as [st1 b] eqn:Hb.
    destruct b; [|apply IH].
    intros [= <-]. right; right. by eapply loop_body_break.
Qed.

(** ** Queue items carry no edge *)

Lemma queue_plain_record cur d st r :
  queue_plain st -> queue_plain (process_record max_depth cur d st r).
Proof.
  intros Hq nd ed d' Hin.
  destruct (process_record_enqueue max_depth cur d st r) as [Heq|(_ & _ & _ & Heq)];
    rewrite Heq in Hin; [by eapply Hq|].
  apply elem_of_app in Hin as [Hin|Hin%list_elem_of_singleton]; [by eapply Hq|].
  by injection Hin as _ ->.
Qed.

Lemma queue_plain_records cur d rs st :
  queue_plain st -> queue_plain (foldl (process_record max_depth cur d) st rs).
Proof. intros. apply foldl_invariant; [done|]. intros; by apply queue_plain_record. Qed.

Lemma queue_plain_pop st item rest :
  queue_plain st -> queue st = item :: rest ->
  item.1.2 = None /\ queue_plain (set_queue rest st).
Proof.
  intros Hq Heq. destruct item as [[cur ed] d]. split.
  - apply (Hq cur ed d). rewrite Heq. left.
  - intros nd e d' Hin. apply (Hq nd e d'). rewrite Heq. by right.
Qed.

(** ** Depth *)

Variable start : KnowledgeGraphNode.

Lemma within_depth_record cur d st r :
  hops g start d cur -> 0 <= d -> r ∈ fetched g (n_id cur) ->
  within_depth g start max_depth st ->
  within_depth g start max_depth (process_record max_depth cur d st r).
Proof.
  intros Hcur Hd Hr [Hn Hq].
  destruct (process_record_frame max_depth cur d st r) as (Hnodes & _ & _).
  split; [by rewrite Hnodes|].
  intros nd ed d' Hin.
  destruct (process_record_enqueue max_depth cur d st r) as [Heq|(_ & _ & _ & Heq)];
    rewrite Heq in Hin; [by eapply Hq|].
  apply elem_of_app in Hin as [Hin|Hin%list_elem_of_singleton]; [by eapply Hq|].
  injection Hin as -> _ ->. split; [lia|]. by eapply hops_step.
Qed.

Lemma within_depth_body st item rest st' b :
  within_depth g start max_depth st -> queue st = item :: rest ->
  loop_body g max_depth max_nodes item (set_queue rest st) = (st', b) ->
  within_depth g start max_depth st'.
Proof.
  intros [Hn Hq] Heq. destruct item as [[cur ed] d].
  assert (0 <= d /\ hops g start d cur) as [Hd Hcur].
  { apply (Hq cur ed d). rewrite Heq. left. }
  assert (within_depth g start max_depth (set_queue rest st)) as Hpop.
  { split; [done|]. intros nd e d' Hin. apply (Hq nd e d'). rewrite Heq. by right. }
  unfold loop_body.
  case_bool_decide as Hin; [by intros [= <- <-]|].
  destruct (Z.gtb_spec d max_depth) as [Hgt|Hle]; [by intros [= <- <-]|].
  assert (within_depth g start max_depth (visit cur ed (set_queue rest st))) as Hvis.
  { destruct (visit_frame cur ed (set_queue rest st)) as (Hn1 & _ & _ & _ & Hq1).
    split.
    - rewrite Hn1. intros nd [Hnd|Hnd%list_elem_of_singleton]%elem_of_app.
      + by apply Hn.
      + subst nd. exists d. split; [lia | done].
    - rewrite Hq1. apply Hpop. }
  case_match; intros [= <- <-].
  - destruct Hvis as [Hn1 Hq1]. split; [exact Hn1 | exact Hq1].
  - apply foldl_invariant; [done|]. intros; by apply within_depth_record.
Qed.

(** ** One edge for each unordered pair *)

Lemma one_edge_per_pair_record cur d st r :
  one_edge_per_pair st -> one_edge_per_pair (process_record max_depth cur d st r).
Proof.
  intros (Hplain & Hnd & Hin). split; [by apply queue_plain_record|].
  destruct (process_record_edges max_depth cur d st r)
    as [(-> & _ & ->)|(_ & _ & Hfresh & _ & -> & _ & ->)]; [done|].
  split.
  - apply NoDup_fmap_snoc; [done|].
    intros (ed & Heq & Hed)%list_elem_of_fmap. apply Hfresh.
    change (sorted_pair (n_id cur) (record_target r)) with (pair_of (record_edge cur r)).
    rewrite Heq. by apply Hin.
  - intros ed [Hed|Hed%list_elem_of_singleton]%elem_of_app.
    + apply elem_of_union_l. by apply Hin.
    + subst ed. apply elem_of_union_r. by apply elem_of_singleton.
Qed.

Lemma one_edge_per_pair_body st item rest st' b :
  one_edge_per_pair st -> queue st = item :: rest ->
  loop_body g max_depth max_nodes item (set_queue rest st) = (st', b) ->
  one_edge_per_pair st'.
Proof.
  intros (Hplain & Hnd & Hin) Heq.
  destruct (queue_plain_pop st item rest Hplain Heq) as [Hnone Hpop].
  destruct item as [[cur ed] d]. simpl in Hnone. subst ed.
  assert (one_edge_per_pair (set_queue rest st)) as Hst by done.
  unfold loop_body.
  case_bool_decide; [by intros [= <- <-]|].
  case_match; [by intros [= <- <-]|].
  assert (one_edge_per_pair (visit cur None (set_queue rest st))) as Hvis by done.
  case_match; intros [= <- <-]; [done|].
  apply foldl_invariant; [done|]. intros; by apply one_edge_per_pair_record.
Qed.

(** ** Both ends of an edge *)

Lemma endpoints_known_record cur d st r :
  n_id cur ∈ visited_nodes st ->
  endpoints_known max_depth st ->
  endpoints_known max_depth (process_record max_depth cur d st r).
Proof.
  intros Hcur (Hplain & Hids & Hed).
  split; [by apply queue_plain_record|].
  destruct (process_record_frame max_depth cur d st r) as (Hnodes & _ & Hvis).
  split; [by rewrite Hnodes, Hvis|]. rewrite Hvis. clear Hnodes Hvis.
  assert (forall ed, ed ∈ edges (bfs_result st) -> forall l,
            e_source ed ∈ visited_nodes st /\
            (e_target ed ∈ visited_nodes st \/
             exists nd d, (nd, None, d) ∈ queue st ++ l /\ n_id nd = e_target ed /\
                          d <= max_depth)) as Hold.
  { intros ed [Hs [Ht|(nd & d' & Hin & Hn & Hd)]]%Hed l; (split; [done|]); [by left|].
    right. exists nd, d'. split; [|done]. apply elem_of_app. by left. }
  destruct (process_record_step cur d st r)
    as [->|(st1 & [->|(_ & Hcond & ->)] & [[Hin ->]|[Hout [[Hlt ->]|[Hge ->]]]])];
    try done; simpl.
  - intros ed Hin. by apply Hold.
  - intros ed [Hin'|Hnew%list_elem_of_singleton]%elem_of_app; [by apply Hed|].
    subst ed. simpl. auto.
  - intros ed [Hin|Hnew%list_elem_of_singleton]%elem_of_app; [by apply Hold|].
    subst ed. simpl. split; [done|]. right. exists (record_node r), (d + 1).
    split; [|split; [done | lia]]. apply elem_of_app. right. by left.
  - by destruct Hcond.
Qed.

Lemma endpoints_known_body st item rest st' b :
  endpoints_known max_depth st -> queue st = item :: rest ->
  loop_body g max_depth max_nodes item (set_queue rest st) = (st', b) ->
  endpoints_known max_depth st'.
Proof.
  intros (Hplain & Hids & Hed) Heq.
  destruct (queue_plain_pop st item rest Hplain Heq) as [Hnone Hpop].
  destruct item as [[cur ed0] d]. simpl in Hnone. subst ed0.
  (* an edge waiting for the head of the queue, or for something behind it *)
  assert (forall ed, ed ∈ edges (bfs_result st) ->
            e_source ed ∈ visited_nodes st /\
            (e_target ed ∈ visited_nodes st \/
             (n_id cur = e_target ed /\ d <= max_depth) \/
             exists nd d', (nd, None, d') ∈ rest /\ n_id nd = e_target ed /\
                           d' <= max_depth)) as Hsplit.
  { intros ed [Hs [Ht|(nd & d' & Hin & Hn & Hd)]]%Hed; (split; [done|]); [by left|].
    rewrite Heq in Hin. apply elem_of_cons in Hin as [[= -> ->]|Hin]; [auto|].
    right; right. by exists nd, d'. }
  unfold loop_body.
  case_bool_decide as Hin.
  { intros [= <- <-]. split; [done|]. split; [done|]. simpl.
    intros ed [Hs [Ht|[[Hn _]|Hw]]]%Hsplit; (split; [done|]); [by left| |by right].
    left. by rewrite <- Hn. }
  destruct (Z.gtb_spec d max_depth) as [Hgt|Hle].
  { intros [= <- <-]. split; [done|]. split; [done|]. simpl.
    intros ed [Hs [Ht|[[_ Hd]|Hw]]]%Hsplit; (split; [done|]); [by left|lia|by right]. }
  assert (endpoints_known max_depth (visit cur None (set_queue rest st)) /\
          n_id cur ∈ visited_nodes (visit cur None (set_queue rest st))) as [Hvis Hcur].
  { split; [|simpl; set_solver]. split; [done|]. simpl. split.
    - intros x. rewrite elem_of_fmap_snoc, <- Hids. set_solver.
    - intros ed [Hs [Ht|[[Hn _]|Hw]]]%Hsplit; (split; [set_solver|]);
        [left; set_solver | left; set_solver | by right]. }
  case_match; intros [= <- <-]; [done|].
  apply (foldl_invariant _ (fun s => endpoints_known max_depth s /\ n_id cur ∈ visited_nodes s));
    [done|].
  intros s r _ [Hs Hc]. split; [by apply endpoints_known_record|].
  by destruct (process_record_frame max_depth cur d s r) as (_ & _ & ->).
Qed.
End Traversal.

(** ** What the fallback traversal returns *)

(** The traversal never returns more nodes than [max_nodes], and none at
    all for a limit of zero or less. *)
Theorem fallback_node_limit (g : GraphView) (node_label : string)
    (max_depth max_nodes : Z) (kg : KnowledgeGraph) :
  _robust_fallback g node_label max_depth max_nodes = Some kg ->
  Z.of_nat (length (nodes kg)) <= Z.max 0 max_nodes.
Proof.
  intros Hkg. destruct (robust_fallback_flag _ _ _ _ _ Hkg) as [Ht Hf].
  destruct (is_truncated kg).
  - specialize (Ht eq_refl). lia.
  - destruct (Hf eq_refl) as [Hlt| ->]; simpl; lia.
Qed.

Lemma fallback_node_limit_witness :
  Z.of_nat (length (nodes (default empty_graph (_robust_fallback chain5 "A" 4 2))))
  <= Z.max 0 2.
Proof.
  apply (fallback_node_limit chain5 "A" 4 2). vm_compute. reflexivity.
Defined.

(** Every returned node is reached from the start node along at most
    [max_depth] records of the neighbour query, each among the first 1000
    of the node before it; with a negative [max_depth] nothing is
    returned. *)
Theorem fallback_within_depth (g : GraphView) (node_label : string)
    (max_depth max_nodes : Z) (n : Neo4jNode) (kg : KnowledgeGraph) :
  match_entity g node_label = Some n ->
  _robust_fallback g node_label max_depth max_nodes = Some kg ->
  Forall (fun nd => exists d, 0 <= d <= max_depth /\ hops g (start_node_of n) d nd)
         (nodes kg).
Proof.
  unfold _robust_fallback. intros ->.
  destruct (bfs_loop _ _ _ _ _) as [st|] eqn:Hloop; [|done]. intros [= <-].
  apply (bfs_loop_invariant _ _ _ (within_depth g (start_node_of n) max_depth)) in Hloop.
  - destruct Hloop as [Hn _]. by apply Forall_forall.
  - intros; by eapply within_depth_body.
  - split; simpl; [intros ? []%elem_of_nil|].
    intros nd ed d [= -> -> ->]%list_elem_of_singleton. split; [lia | constructor].
Qed.

Lemma fallback_within_depth_witness :
  Forall (fun nd => exists d, 0 <= d <= 2 /\ hops chain5 (start_node_of (entity "A")) d nd)
         (nodes (default empty_graph (_robust_fallback chain5 "A" 2 10))).
Proof.
  apply (fallback_within_depth chain5 "A" 2 10 (entity "A")).
  - vm_compute. reflexivity.
  - vm_compute. reflexivity.
Defined.

(** The order of the two ends does not matter to [sorted_pair]. *)
Lemma sorted_pair_comm (a b : string) : sorted_pair a b = sorted_pair b a.
Proof.
  unfold sorted_pair.
  destruct (String.leb a b) eqn:Hab, (String.leb b a) eqn:Hba; try done.
  - by rewrite (String.leb_antisym a b Hab Hba).
  - destruct (String.leb_total a b); congruence.
Qed.

Lemma fallback_pairs_nodup (g : GraphView) (node_label : string)
    (max_depth max_nodes : Z) (kg : KnowledgeGraph) :
  _robust_fallback g node_label max_depth max_nodes = Some kg ->
  NoDup (pair_of <$> edges kg).
Proof.
  unfold _robust_fallback. destruct (match_entity g node_label) as [n|].
  - destruct (bfs_loop _ _ _ _ _) as [st|] eqn:Hloop; [|done]. intros [= <-].
    apply (bfs_loop_invariant _ _ _ one_edge_per_pair) in Hloop.
    + by destruct Hloop as (_ & ? & _).
    + intros; by eapply one_edge_per_pair_body.
    + split; [|split]; simpl.
      * intros nd ed d [= _ -> _]%list_elem_of_singleton. done.
      * apply NoDup_nil_2.
      * intros ? []%elem_of_nil.
  - intros [= <-]. apply NoDup_nil_2.
Qed.

(** Parallel relationships are collapsed: two returned edges at different
    places never join the same two entities, in the same or in the
    opposite direction. *)
Theorem fallback_one_edge_per_pair (g : GraphView) (node_label : string)
    (max_depth max_nodes : Z) (kg : KnowledgeGraph) (i j : nat)
    (ed1 ed2 : KnowledgeGraphEdge) :
  _robust_fallback g node_label max_depth max_nodes = Some kg ->
  edges kg !! i = Some ed1 -> edges kg !! j = Some ed2 -> i <> j ->
  ~ (e_source ed1 = e_source ed2 /\ e_target ed1 = e_target ed2) /\
  ~ (e_source ed1 = e_target ed2 /\ e_target ed1 = e_source ed2).
Proof.
  intros Hkg H1 H2 Hij.
  pose proof (fallback_pairs_nodup _ _ _ _ _ Hkg) as Hnd.
  assert (pair_of ed1 <> pair_of ed2) as Hne.
  { intros Heq. apply Hij. eapply NoDup_lookup; [exact Hnd| |].
    - by rewrite list_lookup_fmap, H1.
    - by rewrite list_lookup_fmap, H2, Heq. }
  split; intros [Hs Ht]; apply Hne; unfold pair_of.
  - by rewrite Hs, Ht.
  - rewrite Hs, Ht. apply sorted_pair_comm.
Qed.

Lemma fallback_one_edge_per_pair_witness :
  ~ ("A" = "B" /\ "B" = "C") /\ ~ ("A" = "C" /\ "B" = "B").
Proof.
  apply (fallback_one_edge_per_pair chain5 "A" 2 10
           (default empty_graph (_robust_fallback chain5 "A" 2 10)) 0 1
           {| e_id := "1"; e_type := "DIRECTED"; e_source := "A"; e_target := "B";
              e_properties := [] |}
           {| e_id := "2"; e_type := "DIRECTED"; e_source := "B"; e_target := "C";
              e_properties := [] |}).
  - vm_compute. reflexivity.
  - vm_compute. reflexivity.
  - vm_compute. reflexivity.
  - lia.
Defined.

(** A truncated result can hold an edge to a node that was left out. *)
Example fallback_dangling_edge :
  ids_of (_robust_fallback star "A" 1 2) = (["A"; "B"], ["1"; "2"], true) /\
  (e_target <$> edges (default empty_graph (_robust_fallback star "A" 1 2))) = ["B"; "C"].
Proof. split; vm_compute; reflexivity. Qed.

(** Every returned edge starts at a returned node; when the result is not
    flagged as truncated it also ends at one. *)
Theorem fallback_edges_closed (g : GraphView) (node_label : string)
    (max_depth max_nodes : Z) (kg : KnowledgeGraph) :
  _robust_fallback g node_label max_depth max_nodes = Some kg ->
  Forall (fun ed => e_source ed ∈ n_id <$> nodes kg) (edges kg) /\
  (is_truncated kg = false ->
   Forall (fun ed => e_target ed ∈ n_id <$> nodes kg) (edges kg)).
Proof.
  unfold _robust_fallback. destruct (match_entity g node_label) as [n|].
  - destruct (bfs_loop _ _ _ _ _) as [st|] eqn:Hloop; [|done]. intros [= <-].
    pose proof (bfs_loop_exit _ _ _ _ _ _ Hloop) as Hexit.
    pose proof Hloop as Hflag.
    apply (bfs_loop_invariant _ _ _ (flag_counts max_nodes)) in Hflag;
      [|intros; by eapply flag_counts_body | apply flag_counts_initial].
    apply (bfs_loop_invariant _ _ _ (endpoints_known max_depth)) in Hloop.
    + destruct Hloop as (_ & Hids & Hed), Hflag as (Hsz & _ & Hf).
      split; [|intros Hfalse]; apply Forall_forall.
      * intros ed [Hs _]%Hed. by apply Hids.
      * intros ed Hin. destruct (Hed ed Hin) as [Hs [Ht|(nd & d & Hq & _)]].
        { by apply Hids. }
        destruct Hexit as [Hnil|[Hfull|Htrue]]; [rewrite Hnil in Hq; by apply elem_of_nil in Hq| |congruence].
        destruct (Hf Hfalse) as [Hlt|Hnone]; [lia|].
        apply Hids in Hs. rewrite Hnone in Hs. by apply elem_of_nil in Hs.
    + intros; by eapply endpoints_known_body.
    + split; [|split]; simpl.
      * intros nd ed d [= _ -> _]%list_elem_of_singleton. done.
      * intros x. set_solver.
      * intros ? []%elem_of_nil.
  - intros [= <-]. split; [|intros _]; apply Forall_nil_2.
Qed.

Lemma fallback_edges_closed_witness :
  Forall (fun ed => e_source ed ∈
            n_id <$> nodes (default empty_graph (_robust_fallback chain5 "A" 2 10)))
         (edges (default empty_graph (_robust_fallback chain5 "A" 2 10))) /\
  (is_truncated (default empty_graph (_robust_fallback chain5 "A" 2 10)) = false ->
   Forall (fun ed => e_target ed ∈
             n_id <$> nodes (default empty_graph (_robust_fallback chain5 "A" 2 10)))
          (edges (default empty_graph (_robust_fallback chain5 "A" 2 10)))).
Proof.
  apply (fallback_edges_closed chain5 "A" 2 10). vm_compute. reflexivity.
Defined.

(** * The query path keeps what the store answered *)

Lemma handle_node_spec a node :
  edges (asm_result (handle_node a node)) = edges (asm_result a) /\
  is_truncated (asm_result (handle_node a node)) = is_truncated (asm_result a) /\
  seen_edges (handle_node a node) = seen_edges a /\
  seen_nodes (handle_node a node) = seen_nodes a ∪ {[ neo_id node ]} /\
  (forall x, x ∈ n_id <$> nodes (asm_result (handle_node a node)) <->
             x ∈ n_id <$> nodes (asm_result a) \/
             ((neo_id node ∉ seen_nodes a) /\ x = pretty (neo_id node))).
Proof.
  unfold handle_node. case_bool_decide as Hin; simpl.
  - repeat split; try done; [set_solver| |]; intros; [by left | tauto].
  - repeat split; try done; rewrite elem_of_fmap_snoc; simpl; tauto.
Qed.

Lemma handle_rel_spec a rel :
  nodes (asm_result (handle_rel a rel)) = nodes (asm_result a) /\
  is_truncated (asm_result (handle_rel a rel)) = is_truncated (asm_result a) /\
  seen_nodes (handle_rel a rel) = seen_nodes a /\
  seen_edges (handle_rel a rel) = seen_edges a ∪ {[ rel_id rel ]} /\
  (forall x, x ∈ e_id <$> edges (asm_result (handle_rel a rel)) <->
             x ∈ e_id <$> edges (asm_result a) \/
             ((rel_id rel ∉ seen_edges a) /\ x = pretty (rel_id rel))).
Proof.
  unfold handle_rel. case_bool_decide as Hin; simpl.
  - repeat split; try done; [set_solver| |]; intros; [by left | tauto].
  - repeat split; try done; rewrite elem_of_fmap_snoc; simpl; tauto.
Qed.

Lemma ids_are_seen_node a node : ids_are_seen a -> ids_are_seen (handle_node a node).
Proof.
  intros [Hn He].
  destruct (handle_node_spec a node) as (Hed & _ & Hse & Hsn & Hids).
  split.
  - intros x. rewrite Hids, Hsn, Hn. split.
    + intros [(z & Hz & ->)|[_ ->]]; eexists; (split; [|done]); set_solver.
    + intros (z & [Hz| ->%elem_of_singleton]%elem_of_union & ->); [left; eauto|].
      destruct (decide (neo_id node ∈ seen_nodes a)); [left; eauto | right; auto].
  - by rewrite Hed, Hse.
Qed.

Lemma ids_are_seen_rel a rel : ids_are_seen a -> ids_are_seen (handle_rel a rel).
Proof.
  intros [Hn He].
  destruct (handle_rel_spec a rel) as (Hnd & _ & Hsn & Hse & Hids).
  split.
  - by rewrite Hnd, Hsn.
  - intros x. rewrite Hids, Hse, He. split.
    + intros [(z & Hz & ->)|[_ ->]]; eexists; (split; [|done]); set_solver.
    + intros (z & [Hz| ->%elem_of_singleton]%elem_of_union & ->); [left; eauto|].
      destruct (decide (rel_id rel ∈ seen_edges a)); [left; eauto | right; auto].
Qed.

Lemma handle_nodes_seen l a :
  let a' := foldl handle_node a l in
  seen_nodes a' = seen_nodes a ∪ list_to_set (neo_id <$> l) /\
  seen_edges a' = seen_edges a /\
  is_truncated (asm_result a') = is_truncated (asm_result a).
Proof.
  revert a; induction l as [|node l IH]; intros a; simpl.
  - split; [set_solver | done].
  - destruct (IH (handle_node a node)) as (-> & -> & ->).
    destruct (handle_node_spec a node) as (_ & -> & -> & -> & _).
    split; [set_solver | done].
Qed.

Lemma handle_rels_seen l a :
  let a' := foldl handle_rel a l in
  seen_edges a' = seen_edges a ∪ list_to_set (rel_id <$> l) /\
  seen_nodes a' = seen_nodes a /\
  is_truncated (asm_result a') = is_truncated (asm_result a).
Proof.
  revert a; induction l as [|rel l IH]; intros a; simpl.
  - split; [set_solver | done].
  - destruct (IH (handle_rel a rel)) as (-> & -> & ->).
    destruct (handle_rel_spec a rel) as (_ & -> & -> & -> & _).
    split; [set_solver | done].
Qed.

(** Assembling a record keeps the flag and returns, by id, exactly the
    nodes and relationships of the record. *)
Lemma assemble_complete truncated record :
  is_truncated (assemble truncated (Some record)) = truncated /\
  (forall x, x ∈ n_id <$> nodes (assemble truncated (Some record)) <->
             x ∈ (fun node => pretty (neo_id node)) <$> node_info record) /\
  (forall x, x ∈ e_id <$> edges (assemble truncated (Some record)) <->
             x ∈ (fun rel => pretty (rel_id rel)) <$> relationships record).
Proof.
  unfold assemble.
  set (start := {| asm_result := {| nodes := []; edges := []; is_truncated := truncated |};
                   seen_nodes := ∅; seen_edges := ∅ |}).
  set (a1 := foldl handle_node start (node_info record)).
  assert (ids_are_seen start) as Hstart.
  { split; intros x; simpl; split; try (by intros []%elem_of_nil); intros (z & Hz & _);
      set_solver. }
  assert (ids_are_seen a1) as H1.
  { apply foldl_invariant; [done|]. intros; by apply ids_are_seen_node. }
  assert (ids_are_seen (foldl handle_rel a1 (relationships record))) as [Hn He].
  { apply foldl_invariant; [done|]. intros; by apply ids_are_seen_rel. }
  destruct (handle_nodes_seen (node_info record) start) as (Hsn1 & Hse1 & Ht1).
  destruct (handle_rels_seen (relationships record) a1) as (Hse2 & Hsn2 & Ht2).
  fold a1 in Hsn1, Hse1, Ht1.
  split; [by rewrite Ht2, Ht1|]. split; intros x.
  - rewrite Hn, Hsn2, Hsn1. simpl. rewrite list_elem_of_fmap. split.
    + intros (z & Hz & ->). apply elem_of_union in Hz as [Hz|Hz]; [set_solver|].
      apply elem_of_list_to_set, list_elem_of_fmap in Hz as (node & -> & Hnode). eauto.
    + intros (node & -> & Hnode). exists (neo_id node). split; [|done].
      apply elem_of_union_r, elem_of_list_to_set, list_elem_of_fmap. eauto.
  - rewrite He, Hse2, Hse1. simpl. rewrite list_elem_of_fmap. split.
    + intros (z & Hz & ->). apply elem_of_union in Hz as [Hz|Hz]; [set_solver|].
      apply elem_of_list_to_set, list_elem_of_fmap in Hz as (rel & -> & Hrel). eauto.
    + intros (rel & -> & Hrel). exists (rel_id rel). split; [|done].
      apply elem_of_union_r, elem_of_list_to_set, list_elem_of_fmap. eauto.
Qed.

(** For a label other than the wildcard, when the unlimited query answers
    with a record whose node count is within [max_nodes], the result is
    not flagged and holds, by id, exactly the nodes and the relationships
    of that record. *)
Theorem query_path_within_limit (s : Neo4jSession) (node_label : string)
    (max_depth max_nodes : Z) (full_record : SubgraphRecord) :
  String.eqb node_label "*" = false ->
  full_query s node_label max_depth = Single (Some full_record) ->
  total_nodes full_record <= max_nodes ->
  exists kg,
    neo4j_get_knowledge_graph s node_label max_depth max_nodes = Some kg /\
    is_truncated kg = false /\
    (forall x, x ∈ n_id <$> nodes kg <->
               x ∈ (fun node => pretty (neo_id node)) <$> node_info full_record) /\
    (forall x, x ∈ e_id <$> edges kg <->
               x ∈ (fun rel => pretty (rel_id rel)) <$> relationships full_record).
Proof.
  intros Hlabel Hfull Hle. unfold neo4j_get_knowledge_graph.
  rewrite Hlabel, Hfull. apply Z.leb_le in Hle. rewrite Hle.
  eexists. split; [reflexivity|]. apply assemble_complete.
Qed.

Lemma query_path_within_limit_witness :
  exists kg,
    neo4j_get_knowledge_graph apoc_session "A" 2 10 = Some kg /\
    is_truncated kg = false /\
    (forall x, x ∈ n_id <$> nodes kg <->
               x ∈ (fun node => pretty (neo_id node)) <$> node_info apoc_record) /\
    (forall x, x ∈ e_id <$> edges kg <->
               x ∈ (fun rel => pretty (rel_id rel)) <$> relationships apoc_record).
Proof.
  apply (query_path_within_limit apoc_session "A" 2 10 apoc_record).
  - reflexivity.
  - reflexivity.
  - vm_compute. discriminate.
Defined.

(** * More on the response cache *)

(** ** The stored payload *)

Lemma hex_digit_char (d : Z) : 0 <= d < 16 -> hex_digit (hex_char d) = Some d.
Proof.
  intros Hd.
  assert (d = 0 \/ d = 1 \/ d = 2 \/ d = 3 \/ d = 4 \/ d = 5 \/ d = 6 \/ d = 7 \/
          d = 8 \/ d = 9 \/ d = 10 \/ d = 11 \/ d = 12 \/ d = 13 \/ d = 14 \/ d = 15)
    as Hcases by lia.
  repeat (destruct Hcases as [->|Hcases]; [done|]). by subst d.
Qed.

Lemma hex_char_no_space (d : Z) : 0 <= d < 16 -> is_space (hex_char d) = false.
Proof.
  intros Hd.
  assert (d = 0 \/ d = 1 \/ d = 2 \/ d = 3 \/ d = 4 \/ d = 5 \/ d = 6 \/ d = 7 \/
          d = 8 \/ d = 9 \/ d = 10 \/ d = 11 \/ d = 12 \/ d = 13 \/ d = 14 \/ d = 15)
    as Hcases by lia.
  repeat (destruct Hcases as [->|Hcases]; [done|]). by subst d.
Qed.

Lemma fromhex_hex (b : list Z) :
  Forall (fun x => 0 <= x <= 255) b -> fromhex (hex b) = Ok b.
Proof.
  induction 1 as [|x b Hx _ IH]; [done|].
  assert (0 <= x / 16 < 16) as Hhi by (split; [apply Z.div_pos | apply Z.div_lt_upper_bound]; lia).
  assert (0 <= x mod 16 < 16) as Hlo by (apply Z.mod_pos_bound; lia).
  cbn [hex foldr fromhex]. fold (hex b).
  rewrite (hex_char_no_space _ Hhi), (hex_digit_char _ Hhi), (hex_digit_char _ Hlo), IH.
  cbn [fmap result_fmap]. f_equal. f_equal. pose proof (Z.div_mod x 16). lia.
Qed.

(** ** Scanning a bucket *)

Section Scan.
Context {F S : Type} `{Arith F} `{Sqrt F}.
Variable float_of_reply : string -> option F.
Variable similarity_check : string -> string -> string.
Variables (kv : KVStorage F S) (st : S).

Lemma scan_all_skipped cache_type current_embedding (mode_cache : bucket F) b :
  Forall (fun entry => ce_embedding entry.2 = Null \/
                       (truthy cache_type = true /\
                        get (ce_cache_type entry.2) <> cache_type)) mode_cache ->
  for_each (scan_entry cache_type current_embedding) mode_cache b = Ok b.
Proof.
  induction 1 as [|[cache_id cache_data] l Hentry _ IH]; [done|].
  cbn [for_each]. rewrite (scan_entry_skips _ _ _ _ _ Hentry). exact IH.
Qed.

Lemma lookup_all_skipped current_embedding similarity_threshold mode use_llm_check
    llm_func original_prompt cache_type mode_cache :
  get_by_id kv st mode = Ok mode_cache ->
  Forall (fun entry => ce_embedding entry.2 = Null \/
                       (truthy cache_type = true /\
                        get (ce_cache_type entry.2) <> cache_type))
         (or_empty mode_cache) ->
  f_ltb similarity_threshold (f_of_Z (-1)) = false ->
  get_best_cached_response float_of_reply similarity_check kv st current_embedding
    similarity_threshold mode use_llm_check llm_func original_prompt cache_type
  = Ok None.
Proof.
  intros Hget Hall Hthr. unfold get_best_cached_response. rewrite Hget. simpl.
  destruct mode_cache as [[|entry l]|]; [done| |done].
  rewrite (scan_all_skipped _ _ _ _ Hall). simpl. by rewrite Hthr.
Qed.



(** ** Saving and finding again *)

Lemma save_then_fetch (cd : CacheData) text st1 :
  lawful kv -> cd_content cd = Text text -> text <> "" ->
  save_to_cache (Some kv) st cd = (st1, Ok ()) ->
  exists stored entry,
    fetch_mode_cache kv st1 (cd_mode cd) (cd_args_hash cd) = Ok stored /\
    dict_get (cd_args_hash cd) stored = Some entry /\
    ce_return entry = Val text.
Proof.
  intros [Hdict Hryw] Hcontent Hne. unfold save_to_cache. rewrite Hcontent.
  apply eqb_false in Hne. rewrite Hne.
  destruct (fetch_mode_cache kv st (cd_mode cd) (cd_args_hash cd))
    as [mode_cache|e] eqn:Hfetch; [|done].
  destruct (dict_get (cd_args_hash cd) mode_cache) as [existing|] eqn:Hget.
  - case_bool_decide as Hsame.
    + intros [= <-]. exists mode_cache, existing. repeat split; [done..|].
      by destruct (ce_return existing); simpl in *; simplify_eq.
    + intros Hup.
      destruct (Hryw st st1 (cd_mode cd) (cd_args_hash cd) mode_cache
                  (dict_set (cd_args_hash cd) (new_entry text cd) mode_cache)
                  (new_entry text cd) text)
        as (stored & entry' & Hf & Hg & Hret); try done.
      * apply dict_set_keys. by eapply Hdict.
      * apply dict_get_set.
      * exists stored, entry'. repeat split; [done..|].
        by destruct (ce_return entry'); simpl in *; simplify_eq.
  - intros Hup.
    destruct (Hryw st st1 (cd_mode cd) (cd_args_hash cd) mode_cache
                (dict_set (cd_args_hash cd) (new_entry text cd) mode_cache)
                (new_entry text cd) text)
      as (stored & entry' & Hf & Hg & Hret); try done.
    + apply dict_set_keys. by eapply Hdict.
    + apply dict_get_set.
    + exists stored, entry'. repeat split; [done..|].
      by destruct (ce_return entry'); simpl in *; simplify_eq.
Qed.

(** When the lookup goes by [args_hash]: entity extraction with its
    cache on, or a query mode with the cache on and no embedding cache. *)
Lemma handle_cache_by_hash args_hash prompt mode cache_type stored entry text :
  (if String.eqb mode "default"
   then enable_llm_cache_for_entity_extract (global_config kv) = true
   else enable_llm_cache (global_config kv) = true /\
        cfg_enabled (default default_embedding_cache_config
                             (embedding_cache_config (global_config kv))) = false) ->
  fetch_mode_cache kv st mode args_hash = Ok stored ->
  dict_get args_hash stored = Some entry ->
  ce_return entry = Val text ->
  handle_cache float_of_reply similarity_check (Some kv) st args_hash prompt mode cache_type
  = Ok (Some text, None).
Proof.
  intros Hon Hfetch Hget Hret. unfold handle_cache.
  destruct (String.eqb mode "default"); simpl.
  - rewrite Hon. simpl. rewrite Hfetch. simpl. by rewrite Hget, Hret.
  - destruct Hon as [-> ->]. simpl. rewrite Hfetch. simpl. by rewrite Hget, Hret.
Qed.
End Scan.

(** ** [PGKVStorage] stores no embedding *)

Lemma pg_rows_skipped {F : Type} (cache_type : option string) (st : PgCache) (mode : string) :
  truthy cache_type = true ->
  exists mode_cache : option (bucket F),
    pg_get_by_id st mode = Ok mode_cache /\
    Forall (fun entry => ce_embedding entry.2 = Null \/
                         (truthy cache_type = true /\
                          get (ce_cache_type entry.2) <> cache_type))
           (or_empty mode_cache).
Proof.
  intros Hty. unfold pg_get_by_id. eexists. split; [reflexivity|].
  assert (Forall (fun entry : string * CacheEntry F =>
                    ce_embedding entry.2 = Null \/
                    (truthy cache_type = true /\ get (ce_cache_type entry.2) <> cache_type))
                 (rows_of_mode mode (pg_table st))) as Hall.
  { apply Forall_forall. intros [i entry] Hin. right. split; [done|].
    unfold rows_of_mode in Hin. apply list_elem_of_omap in Hin as ([[m j] row] & _ & Hrow).
    destruct (String.eqb m mode); [|done]. injection Hrow as <- <-. simpl.
    by destruct cache_type. }
  by destruct (rows_of_mode mode (pg_table st)).
Qed.

Lemma save_then_lookup {F S : Type} `{Arith F} `{Sqrt F}
    (float_of_reply : string -> option F)
    (similarity_check : string -> string -> string)
    (kv : KVStorage F S) (st st1 : S) (cache_data : CacheData) (text : string)
    (prompt : string) (cache_type : option string) :
  lawful kv ->
  (if String.eqb (cd_mode cache_data) "default"
   then enable_llm_cache_for_entity_extract (global_config kv) = true
   else enable_llm_cache (global_config kv) = true /\
        cfg_enabled (default default_embedding_cache_config
                             (embedding_cache_config (global_config kv))) = false) ->
  cd_content cache_data = Text text -> text <> "" ->
  save_to_cache (Some kv) st cache_data = (st1, Ok ()) ->
  handle_cache float_of_reply similarity_check (Some kv) st1 (cd_args_hash cache_data)
               prompt (cd_mode cache_data) cache_type
  = Ok (Some text, None).
Proof.
  intros Hlaw Hon Hcontent Hne Hsave.
  destruct (save_then_fetch kv st cache_data text st1 Hlaw Hcontent Hne Hsave)
    as (stored & entry & Hfetch & Hget & Hret).
  by eapply handle_cache_by_hash.
Qed.

(** * Properties of the response cache *)

(** What [save_to_cache] stores for a quantized embedding decodes to the
    same bytes under the shape stored beside it. *)
Theorem saved_payload_decodes {F : Type} (text : string) (cache_data : CacheData (F:=F))
    (quantized : list Z) :
  cd_quantized cache_data = Some quantized ->
  Forall (fun x => 0 <= x <= 255) quantized ->
  exists payload,
    ce_embedding (new_entry text cache_data) = Val payload /\
    ce_embedding_shape (new_entry text cache_data) = Val (length quantized) /\
    fromhex payload = Ok quantized.
Proof.
  intros Hq Hbytes. exists (hex quantized). unfold new_entry. simpl. rewrite Hq. simpl.
  repeat split. by apply fromhex_hex.
Qed.

Lemma saved_payload_decodes_witness :
  exists payload,
    ce_embedding (new_entry "an answer"
                    {| cd_args_hash := "h1"; cd_content := Text "an answer";
                       cd_prompt := "a question"; cd_quantized := Some [0; 128; 255];
                       cd_min_val := Some (b64 0 0); cd_max_val := Some (b64 1 0);
                       cd_mode := "local"; cd_cache_type := "query" |}) = Val payload /\
    ce_embedding_shape (new_entry "an answer"
                    {| cd_args_hash := "h1"; cd_content := Text "an answer";
                       cd_prompt := "a question"; cd_quantized := Some [0; 128; 255];
                       cd_min_val := Some (b64 0 0); cd_max_val := Some (b64 1 0);
                       cd_mode := "local"; cd_cache_type := "query" |})
      = Val (length [0; 128; 255]) /\
    fromhex payload = Ok [0; 128; 255].
Proof.
  apply (saved_payload_decodes "an answer"
           {| cd_args_hash := "h1"; cd_content := Text "an answer";
              cd_prompt := "a question"; cd_quantized := Some [0; 128; 255];
              cd_min_val := Some (b64 0 0); cd_max_val := Some (b64 1 0);
              cd_mode := "local"; cd_cache_type := "query" |} [0; 128; 255]).
  - reflexivity.
  - repeat constructor; lia.
Defined.

(** On a storage that reads back what was written, a text that was saved
    is what the lookup by [args_hash] returns afterwards, whatever prompt
    and cache type the lookup is made with. *)
Theorem save_then_lookup_by_hash {F S : Type} `{Arith F} `{Sqrt F}
    (float_of_reply : string -> option F)
    (similarity_check : string -> string -> string)
    (kv : KVStorage F S) (st st1 : S) (cache_data : CacheData) (text : string)
    (prompt : string) (cache_type : option string) :
  lawful kv ->
  (if String.eqb (cd_mode cache_data) "default"
   then enable_llm_cache_for_entity_extract (global_config kv) = true
   else enable_llm_cache (global_config kv) = true /\
        cfg_enabled (default default_embedding_cache_config
                             (embedding_cache_config (global_config kv))) = false) ->
  cd_content cache_data = Text text -> text <> "" ->
  save_to_cache (Some kv) st cache_data = (st1, Ok ()) ->
  handle_cache float_of_reply similarity_check (Some kv) st1 (cd_args_hash cache_data)
               prompt (cd_mode cache_data) cache_type
  = Ok (Some text, None).
Proof. apply save_then_lookup. Qed.

Lemma save_then_lookup_by_hash_witness :
  handle_cache float_of_decimal similarity_check_prompt (Some plain_pg_store)
    (save_to_cache (Some plain_pg_store) empty_table answer_data).1
    "h1" "another question" "local" (Some "keywords")
  = Ok (Some "an answer", None).
Proof.
  apply (save_then_lookup_by_hash float_of_decimal similarity_check_prompt
           plain_pg_store empty_table
           (save_to_cache (Some plain_pg_store) empty_table answer_data).1
           answer_data "an answer" "another question" (Some "keywords")).
  - apply pg_lawful.
  - split; reflexivity.
  - reflexivity.
  - discriminate.
  - vm_compute. reflexivity.
Defined.

(** A bucket in which every entry has no embedding or is of another
    cache type gives a miss, for any threshold that is not below -1. *)
Theorem lookup_without_candidates {F S : Type} `{Arith F} `{Sqrt F}
    (float_of_reply : string -> option F)
    (similarity_check : string -> string -> string)
    (kv : KVStorage F S) (st : S) (current_embedding : list F)
    (similarity_threshold : F) (mode : string) (use_llm_check : bool)
    (llm_func : option (string -> llm_reply))
    (original_prompt cache_type : option string) (mode_cache : option (bucket F)) :
  get_by_id kv st mode = Ok mode_cache ->
  Forall (fun entry => ce_embedding entry.2 = Null \/
                       (truthy cache_type = true /\
                        get (ce_cache_type entry.2) <> cache_type))
         (or_empty mode_cache) ->
  f_ltb similarity_threshold (f_of_Z (-1)) = false ->
  get_best_cached_response float_of_reply similarity_check kv st current_embedding
    similarity_threshold mode use_llm_check llm_func original_prompt cache_type
  = Ok None.
Proof. apply lookup_all_skipped. Qed.

Lemma lookup_without_candidates_witness :
  get_best_cached_response float_of_decimal similarity_check_prompt
    (bucket_store false None) {[ "local" := [("h2", cached_entry)] ]}
    query_embedding (b64 1 (-1)) "local" false None
    (Some "what is a proof?") (Some "keywords")
  = Ok None.
Proof.
  apply (lookup_without_candidates float_of_decimal similarity_check_prompt
           (bucket_store false None) {[ "local" := [("h2", cached_entry)] ]}
           query_embedding (b64 1 (-1)) "local" false None
           (Some "what is a proof?") (Some "keywords") (Some [("h2", cached_entry)])).
  - vm_compute. reflexivity.
  - constructor; [|constructor]. right. split; [reflexivity | discriminate].
  - vm_compute. reflexivity.
Defined.

(** [PGKVStorage] keeps neither embeddings nor cache types, so with the
    embedding cache on, a query mode never gets a cached response from it,
    not even for what was just saved under the same hash. *)
Theorem pg_embedding_cache_never_hits {F : Type} `{Arith F} `{Sqrt F}
    (float_of_reply : string -> option F)
    (similarity_check : string -> string -> string)
    (cfg : GlobalConfig F) (embed : string -> list F) (ecfg : EmbeddingCacheConfig F)
    (st : PgCache) (args_hash prompt mode : string) (cache_type : option string)
    (q : option (list Z) * F * F) :
  String.eqb mode "default" = false ->
  enable_llm_cache cfg = true ->
  embedding_cache_config cfg = Some ecfg -> cfg_enabled ecfg = true ->
  truthy cache_type = true ->
  f_ltb (cfg_similarity_threshold ecfg) (f_of_Z (-1)) = false ->
  quantize_embedding (embed prompt) 8 = Ok q ->
  handle_cache float_of_reply similarity_check (Some (PGKVStorage cfg embed)) st
               args_hash prompt mode cache_type
  = Ok (None, Some q).
Proof.
  intros Hmode Hon Hcfg Hen Hty Hthr Hq. unfold handle_cache. simpl.
  rewrite Hmode, Hon, Hcfg. simpl. rewrite Hen, Hq. simpl.
  destruct (pg_rows_skipped (F:=F) cache_type st mode Hty) as (mode_cache & Hget & Hall).
  by rewrite (lookup_all_skipped float_of_reply similarity_check (PGKVStorage cfg embed) st
                _ _ _ _ _ _ _ mode_cache Hget Hall Hthr).
Qed.

Lemma pg_embedding_cache_never_hits_witness :
  handle_cache float_of_decimal similarity_check_prompt (Some pg_store) saved_table
               "h1" "a question" "local" (Some "query")
  = Ok (None, Some (Some [0; 128; 255], b64 0 0, b64 1 0)).
Proof.
  apply (pg_embedding_cache_never_hits float_of_decimal similarity_check_prompt
           (semantic_config false None) (fun _ => query_embedding)
           {| cfg_enabled := true; cfg_similarity_threshold := b64 1 (-1);
              cfg_use_llm_check := false |}
           saved_table "h1" "a question" "local" (Some "query")).
  - reflexivity.
  - reflexivity.
  - reflexivity.
  - reflexivity.
  - reflexivity.
  - vm_compute. reflexivity.
  - vm_compute. reflexivity.
Defined.



(** ** [use_llm_func_with_cache] *)

Section SecondCall.
Context {F S : Type} `{Arith F} `{Sqrt F}.
Variable float_of_reply : string -> option F.
Variable similarity_check : string -> string -> string.

(** In the mode ["default"] the lookup does not look at the cache type. *)
Lemma handle_cache_default_type (kv : KVStorage F S) st args_hash prompt
    (cache_type cache_type' : option string) :
  handle_cache float_of_reply similarity_check (Some kv) st args_hash prompt
               "default" cache_type
  = handle_cache float_of_reply similarity_check (Some kv) st args_hash prompt
                 "default" cache_type'.
Proof. reflexivity. Qed.
End SecondCall.

(** Once a call has returned a non-empty text, whether from the cache or
    from the LLM, the next call with the same input and history returns
    the same text from the cache: the LLM function is not consulted, the
    storage is not written, and [llm_cache] is counted. *)
Theorem llm_second_call_is_cached {F S : Type} `{Arith F} `{Sqrt F}
    (float_of_reply : string -> option F)
    (similarity_check : string -> string -> string)
    (json_dumps : list message -> string) (compute_args_hash : string -> string)
    (kv : KVStorage F S) (st st1 : S) (stats stats1 : Statistics)
    (input_text : string) (use_llm_func use_llm_func' : string -> LlmKwargs -> result string)
    (max_tokens max_tokens' : option Z) (history_messages : option (list message))
    (cache_type cache_type' : string) (text : string) :
  lawful kv ->
  enable_llm_cache_for_entity_extract (global_config kv) = true ->
  text <> "" ->
  use_llm_func_with_cache float_of_reply similarity_check json_dumps compute_args_hash
    input_text use_llm_func (Some kv) max_tokens history_messages cache_type st stats
  = (st1, stats1, Ok text) ->
  use_llm_func_with_cache float_of_reply similarity_check json_dumps compute_args_hash
    input_text use_llm_func' (Some kv) max_tokens' history_messages cache_type' st1 stats1
  = (st1, count_llm_cache stats1, Ok text).
Proof.
  intros Hlaw Hon Hne. unfold use_llm_func_with_cache.
  set (prompt := llm_prompt json_dumps input_text history_messages).
  set (arg_hash := compute_args_hash prompt).
  rewrite (handle_cache_default_type _ _ kv st1 arg_hash prompt
             (Some cache_type') (Some cache_type)).
  destruct (handle_cache float_of_reply similarity_check (Some kv) st arg_hash prompt
                         "default" (Some cache_type)) as [[cached fresh]|e] eqn:Hlook;
    [|done].
  destruct (truthy cached) eqn:Hcached.
  - intros [= <- <- <-]. by rewrite Hlook, Hcached.
  - destruct (use_llm_func input_text _) as [res|e]; [|done].
    destruct (save_to_cache _ _ _) as [st' [[]|e]] eqn:Hsave; [|done].
    intros [= <- <- <-].
    match type of Hsave with
    | save_to_cache _ _ ?cd = _ =>
      pose proof (save_then_lookup float_of_reply similarity_check kv st st' cd res
                    prompt (Some cache_type) Hlaw Hon eq_refl Hne Hsave) as Hhit
    end.
    cbn [cd_args_hash cd_mode] in Hhit. rewrite Hhit. simpl. apply eqb_false in Hne. by rewrite Hne.
Qed.

Lemma llm_second_call_is_cached_witness :
  use_llm_func_with_cache float_of_decimal similarity_check_prompt
    (fun _ => "[]") (fun s => s) "a question" (fun _ _ => Raise TypeError)
    (Some pg_store) (Some 100) None "summary" first_call.1.1 first_call.1.2
  = (first_call.1.1, count_llm_cache first_call.1.2, Ok "an answer").
Proof.
  apply (llm_second_call_is_cached float_of_decimal similarity_check_prompt
           (fun _ => "[]") (fun s => s) pg_store empty_table first_call.1.1
           no_statistics first_call.1.2 "a question"
           (fun _ _ => Ok "an answer") (fun _ _ => Raise TypeError)
           None (Some 100) None "extract" "summary" "an answer").
  - apply pg_lawful.
  - reflexivity.
  - discriminate.
  - vm_compute. reflexivity.
Defined.

(** * The list helpers *)

Section TruncateProofs.
Context {A : Type}.
Variable key : A -> string.
Variable encode : string -> list Z.

Lemma token_total_app (l1 l2 : list A) :
  token_total key encode (l1 ++ l2) = token_total key encode l1 + token_total key encode l2.
Proof. induction l1 as [|x l1 IH]; simpl; [done|]. rewrite IH. lia. Qed.

Lemma token_total_nonneg (l : list A) : 0 <= token_total key encode l.
Proof. induction l as [|x l IH]; simpl; lia. Qed.

Lemma truncate_from_spec (list_data : list A) (max_token_size : Z) rest :
  forall pre,
    list_data = pre ++ rest ->
    token_total key encode pre <= max_token_size ->
    let r := truncate_from key encode list_data max_token_size
                           (token_total key encode pre) (length pre) rest in
    (exists n, r = take n list_data) /\
    token_total key encode r <= max_token_size /\
    (forall x, list_data !! length r = Some x ->
               max_token_size < token_total key encode (r ++ [x])).
Proof.
  induction rest as [|data rest IH]; intros pre Hl Hle; simpl.
  - rewrite app_nil_r in Hl. subst pre. split; [|split].
    + exists (length list_data). by rewrite firstn_all.
    + done.
    + intros x Hx. apply lookup_lt_Some in Hx. lia.
  - destruct (Z.gtb_spec (token_total key encode pre
                          + Z.of_nat (length (encode (key data)))) max_token_size)
      as [Hgt|Hok].
    + assert (take (length pre) list_data = pre) as Hpre.
      { subst list_data. by rewrite take_app_length. }
      rewrite Hpre. split; [|split].
      * exists (length pre). by rewrite Hpre.
      * done.
      * intros x Hx. subst list_data.
        rewrite lookup_app_r, Nat.sub_diag in Hx by lia. injection Hx as <-.
        rewrite token_total_app. simpl. lia.
    + specialize (IH (pre ++ [data])).
      rewrite length_app, token_total_app in IH. simpl in IH.
      rewrite Nat.add_1_r, Z.add_0_r in IH.
      apply IH; [by rewrite <- app_assoc | lia].
Qed.
End TruncateProofs.

(** [truncate_list_by_token_size] returns the longest prefix of the list
    whose tokens fit the budget: its tokens are within the budget, and
    with the next item they would not be. For a budget of zero or less it
    is the empty list. *)
Theorem truncate_is_longest_prefix {A : Type} (key : A -> string)
    (encode_string_by_tiktoken : string -> list Z) (list_data : list A)
    (max_token_size : Z) :
  (exists n, truncate_list_by_token_size key encode_string_by_tiktoken list_data
               max_token_size = take n list_data) /\
  token_total key encode_string_by_tiktoken
    (truncate_list_by_token_size key encode_string_by_tiktoken list_data max_token_size)
  <= Z.max 0 max_token_size /\
  (forall x,
     0 < max_token_size ->
     list_data !! length (truncate_list_by_token_size key encode_string_by_tiktoken
                            list_data max_token_size) = Some x ->
     max_token_size
     < token_total key encode_string_by_tiktoken
         (truncate_list_by_token_size key encode_string_by_tiktoken list_data
            max_token_size ++ [x])).
Proof.
  unfold truncate_list_by_token_size.
  destruct (Z.leb_spec max_token_size 0) as [Hle|Hlt].
  - split; [by exists 0%nat|]. split; [simpl; lia|]. intros; lia.
  - destruct (truncate_from_spec key encode_string_by_tiktoken list_data max_token_size
                list_data [] eq_refl) as (Hn & Htot & Hnext); [simpl; lia|].
    simpl in *. split; [done|]. split; [lia|]. intros x _. apply Hnext.
Qed.

(** ** Conversation turns *)




(** ** Token usage *)




(** * The codec in exact arithmetic, to half a step *)

Section HalfStep.
Open Scope Q_scope.






End HalfStep.



(** * Termination, the flag, and the Postgres store *)

(** The loop of the fallback traversal ends: from the start node it makes
    at most [1 + 1001 * max_nodes] passes, whatever the store answers. *)
Theorem fallback_loop_terminates (g : GraphView) (max_depth max_nodes : Z)
    (start_node : KnowledgeGraphNode) (fuel : nat) :
  (1 + 1001 * Z.to_nat max_nodes <= fuel)%nat ->
  is_Some (bfs_loop g max_depth max_nodes fuel (initial_state start_node)).
Proof.
  intros Hfuel. apply bfs_loop_enough. unfold passes_left.
  cbn [initial_state queue visited_nodes length]. rewrite size_empty.
  change (S fetch_limit) with 1001%nat. lia.
Qed.

Lemma fallback_loop_terminates_witness :
  is_Some (bfs_loop chain5 2 3 3004 (initial_state node_a)).
Proof.
  apply (fallback_loop_terminates chain5 2 3 node_a 3004). vm_compute. lia.
Defined.

Lemma fallback_flag_at_limit_witness :
  is_truncated (default empty_graph (_robust_fallback chain5 "A" 2 3)) = true <->
  Z.of_nat (length (nodes (default empty_graph (_robust_fallback chain5 "A" 2 3)))) = 3.
Proof.
  apply (fallback_flag_at_limit chain5 "A" 2 3).
  - vm_compute. reflexivity.
  - vm_compute. discriminate.
Defined.

(** [PGKVStorage] reads back what was written: after an upsert of a
    bucket that went through, fetching the bucket by mode and id returns
    an entry with the return value that was given. *)
Theorem pg_reads_back_writes {F : Type} (cfg : GlobalConfig F) (embed : string -> list F)
    (st st' : PgCache) (mode args_hash : string) (before mode_cache : bucket F)
    (entry : CacheEntry F) (text : string) :
  fetch_mode_cache (PGKVStorage cfg embed) st mode args_hash = Ok before ->
  NoDup mode_cache.*1 ->
  dict_get args_hash mode_cache = Some entry ->
  ce_return entry = Val text ->
  upsert (PGKVStorage cfg embed) st [(mode, mode_cache)] = (st', Ok ()) ->
  exists stored entry',
    fetch_mode_cache (PGKVStorage cfg embed) st' mode args_hash = Ok stored /\
    dict_get args_hash stored = Some entry' /\
    get (ce_return entry') = Some text.
Proof. apply (read_your_writes _ (pg_lawful cfg embed)). Qed.

Lemma pg_reads_back_writes_witness :
  exists stored entry',
    fetch_mode_cache pg_store
      (upsert pg_store empty_table [("local", [("h1", cached_entry)])]).1 "local" "h1"
    = Ok stored /\
    dict_get "h1" stored = Some entry' /\
    get (ce_return entry') = Some "cached answer".
Proof.
  apply (pg_reads_back_writes (semantic_config false None) (fun _ => query_embedding)
           empty_table (upsert pg_store empty_table [("local", [("h1", cached_entry)])]).1
           "local" "h1" [] [("h1", cached_entry)] cached_entry "cached answer").
  - vm_compute. reflexivity.
  - apply NoDup_singleton.
  - reflexivity.
  - reflexivity.
  - vm_compute. reflexivity.
Defined.

(** * Where a cache hit comes from *)

Section Hit.
Context {F : Type} `{Arith F} `{Sqrt F}.

Lemma scan_entry_taken cache_type current_embedding (b b' : best) cache_id
    (entry : CacheEntry F) :
  scan_entry cache_type current_embedding b (cache_id, entry) = Ok b' ->
  b' = b \/ taken_from cache_type current_embedding [(cache_id, entry)] b'.
Proof.
  unfold scan_entry.
  destruct (truthy cache_type
            && negb (bool_decide (get (ce_cache_type entry) = cache_type))) eqn:Hty;
    [intros [= <-]; by left|].
  destruct (ce_embedding entry) as [| |payload] eqn:Hemb; simpl;
    [done | intros [= <-]; by left |].
  destruct (fromhex payload) as [raw|] eqn:Hraw; simpl; [|done].
  destruct (ce_embedding_shape entry) as [| |d] eqn:Hshape; simpl; [done..|].
  destruct (Nat.eqb_spec (length raw) d) as [<-|]; simpl; [|done].
  destruct (ce_embedding_min entry) as [| |min_val] eqn:Hmin; simpl; [done| |].
  { destruct (ce_embedding_max entry); simpl; done. }
  destruct (ce_embedding_max entry) as [| |max_val] eqn:Hmax; simpl; [done..|].
  destruct (cosine_similarity _ _) as [similarity|] eqn:Hcos; simpl; [|done].
  destruct (f_ltb (best_similarity b) similarity); [|intros [= <-]; by left].
  destruct (item (ce_return entry)) as [response|] eqn:Hret; simpl; [|done].
  destruct (item (ce_original_prompt entry)) as [prompt|]; simpl; [|done].
  intros [= <-]. right.
  exists cache_id, entry, payload, raw, min_val, max_val, similarity. simpl.
  repeat split; try done; [left|].
  intros Htruthy. rewrite Htruthy in Hty. simpl in Hty.
  apply negb_false_iff in Hty. by apply bool_decide_eq_true in Hty.
Qed.

Lemma taken_from_mono cache_type current_embedding (l1 l2 : bucket F) (b : best) :
  l1 ⊆ l2 ->
  taken_from cache_type current_embedding l1 b ->
  taken_from cache_type current_embedding l2 b.
Proof.
  intros Hsub (cache_id & entry & payload & raw & mn & mx & sim & Hin & Hrest).
  exists cache_id, entry, payload, raw, mn, mx, sim. split; [by apply Hsub | done].
Qed.

Lemma scan_taken cache_type current_embedding (l : bucket F) :
  forall (b0 b : best) (seen : bucket F),
    for_each (scan_entry cache_type current_embedding) l b0 = Ok b ->
    b0 = no_best \/ taken_from cache_type current_embedding seen b0 ->
    b = no_best \/ taken_from cache_type current_embedding (seen ++ l) b.
Proof.
  induction l as [|[cache_id entry] l IH]; intros b0 b seen.
  - simpl. intros [= <-]. by rewrite app_nil_r.
  - cbn [for_each].
    destruct (scan_entry cache_type current_embedding b0 (cache_id, entry))
      as [b1|] eqn:Hscan; cbn [mbind result_bind]; [|done].
    intros Hrest Hb0.
    replace (seen ++ (cache_id, entry) :: l) with ((seen ++ [(cache_id, entry)]) ++ l)
      by (by rewrite <- app_assoc).
    apply (IH b1 b _ Hrest).
    destruct (scan_entry_taken _ _ _ _ _ _ Hscan) as [->|Htaken].
    + destruct Hb0 as [?|Hb0]; [by left | right].
      eapply taken_from_mono; [|exact Hb0]. set_solver.
    + right. eapply taken_from_mono; [|exact Htaken]. set_solver.
Qed.
End Hit.

(** A response returned by [get_best_cached_response] is the ["return"]
    of an entry of the mode bucket: one of the requested cache type, whose
    payload decodes under its stored shape, and whose dequantized
    embedding has a cosine similarity with the current embedding that
    exceeds the threshold. *)
Theorem hit_comes_from_entry {F S : Type} `{Arith F} `{Sqrt F}
    (float_of_reply : string -> option F)
    (similarity_check : string -> string -> string)
    (kv : KVStorage F S) (st : S) (current_embedding : list F)
    (similarity_threshold : F) (mode : string) (use_llm_check : bool)
    (llm_func : option (string -> llm_reply))
    (original_prompt cache_type : option string)
    (mode_cache : bucket F) (response : string) :
  get_by_id kv st mode = Ok (Some mode_cache) ->
  get_best_cached_response float_of_reply similarity_check kv st current_embedding
    similarity_threshold mode use_llm_check llm_func original_prompt cache_type
  = Ok (Some response) ->
  exists cache_id entry payload raw min_val max_val similarity,
    (cache_id, entry) ∈ mode_cache /\
    ce_return entry = Val response /\
    (truthy cache_type = true -> get (ce_cache_type entry) = cache_type) /\
    ce_embedding entry = Val payload /\ fromhex payload = Ok raw /\
    ce_embedding_shape entry = Val (length raw) /\
    ce_embedding_min entry = Val min_val /\ ce_embedding_max entry = Val max_val /\
    cosine_similarity current_embedding (dequantize_embedding raw min_val max_val 8)
    = Ok similarity /\
    f_ltb similarity_threshold similarity = true.
Proof.
  intros Hget. unfold get_best_cached_response. rewrite Hget. simpl.
  destruct mode_cache as [|first rest] eqn:Hl; [done|]. rewrite <- Hl.
  destruct (for_each _ mode_cache no_best) as [b|] eqn:Hscan; simpl; [|done].
  destruct (f_ltb similarity_threshold (best_similarity b)) eqn:Hthr; [|done].
  intros Hhit.
  assert (best_response b = Some response) as Hresp.
  { destruct (best_prompt b); [|by repeat case_match].
    repeat case_match; by simplify_eq. }
  destruct (scan_taken cache_type current_embedding mode_cache no_best b [] Hscan
              (or_introl eq_refl))
    as [->|(cache_id & entry & payload & raw & mn & mx & sim &
            Hin & Hty & Hemb & Hraw & Hshape & Hmin & Hmax & Hcos & Hsim & Hret & _)];
    [done|].
  exists cache_id, entry, payload, raw, mn, mx, sim.
  rewrite Hresp in Hret. rewrite Hsim in Hthr.
  repeat split; try done.
  by destruct (ce_return entry); simpl in *; simplify_eq.
Qed.

Lemma hit_comes_from_entry_witness :
  exists cache_id entry payload raw min_val max_val similarity,
    (cache_id, entry) ∈ [("h1", cached_entry)] /\
    ce_return entry = Val "cached answer" /\
    (truthy (Some "query") = true -> get (ce_cache_type entry) = Some "query") /\
    ce_embedding entry = Val payload /\ fromhex payload = Ok raw /\
    ce_embedding_shape entry = Val (length raw) /\
    ce_embedding_min entry = Val min_val /\ ce_embedding_max entry = Val max_val /\
    cosine_similarity query_embedding (dequantize_embedding raw min_val max_val 8)
    = Ok similarity /\
    f_ltb (b64 1 (-1)) similarity = true.
Proof.
  apply (hit_comes_from_entry float_of_decimal similarity_check_prompt
           (bucket_store false None) {[ "local" := [("h1", cached_entry)] ]}
           query_embedding (b64 1 (-1)) "local" false None
           (Some "what is a proof?") (Some "query")
           [("h1", cached_entry)] "cached answer").
  - vm_compute. reflexivity.
  - vm_compute. reflexivity.
Defined.

(** * Bytes of a quantized embedding *)





(** * The shape of a Postgres result *)

Lemma pg_node_shape node_id props nd :
  pg_node node_id props = Ok nd -> labelled nd.
Proof.
  unfold pg_node, labelled. destruct (assoc "entity_id" props) as [entity_id|] eqn:Ha;
    simpl; [|done].
  intros [= <-]. simpl. eauto.
Qed.

Lemma pg_edge_shape edge_id e ed : pg_edge edge_id e = Ok ed -> e_type ed = "DIRECTED".
Proof.
  unfold pg_edge.
  destruct (ed_start_id e), (ed_end_id e), (ed_properties e); simpl; try done.
  by intros [= <-].
Qed.

Lemma shaped_add {V} (P : V -> Prop) k v (d : list (string * V)) :
  Forall P d.*2 -> P v -> Forall P (dict_add k v d).*2.
Proof.
  intros Hd Hv. unfold dict_add. rewrite fmap_app. apply Forall_app. split; [done|].
  by constructor.
Qed.

Lemma shaped_single_node d v d' :
  Forall labelled d.*2 -> single_node d v = Ok d' -> Forall labelled d'.*2.
Proof.
  intros Hd. unfold single_node. destruct (v_id v) as [i|]; simpl; [|done].
  destruct (dict_has _ d); [by intros [= <-]|].
  destruct (v_properties v) as [props|]; simpl; [|done].
  destruct (pg_node _ _) as [nd|] eqn:Hnd; simpl; [|done].
  intros [= <-]. apply shaped_add; eauto using pg_node_shape.
Qed.

Lemma shaped_list_node d item d' :
  Forall labelled d.*2 -> list_node d item = Ok d' -> Forall labelled d'.*2.
Proof.
  intros Hd. unfold list_node.
  destruct item as [v|]; [|by intros [= <-]].
  destruct (v_id v) as [i|]; [|by intros [= <-]].
  destruct (v_properties v) as [props|]; [|by intros [= <-]].
  destruct (dict_has _ d); [by intros [= <-]|].
  destruct (pg_node _ _) as [nd|] eqn:Hnd; simpl; [|done].
  intros [= <-]. apply shaped_add; eauto using pg_node_shape.
Qed.

Lemma shaped_single_edge d e d' :
  Forall (fun ed => e_type ed = "DIRECTED") d.*2 -> single_edge d e = Ok d' ->
  Forall (fun ed => e_type ed = "DIRECTED") d'.*2.
Proof.
  intros Hd. unfold single_edge. destruct (ed_id e) as [i|]; simpl; [|done].
  destruct (dict_has _ d); [by intros [= <-]|].
  destruct (pg_edge _ _) as [ed|] eqn:Hed; simpl; [|done].
  intros [= <-]. apply shaped_add; eauto using pg_edge_shape.
Qed.

Lemma shaped_list_edge d item d' :
  Forall (fun ed => e_type ed = "DIRECTED") d.*2 -> list_edge d item = Ok d' ->
  Forall (fun ed => e_type ed = "DIRECTED") d'.*2.
Proof.
  intros Hd. unfold list_edge.
  destruct item as [e|]; [|by intros [= <-]].
  destruct (ed_id e) as [i|]; [|by intros [= <-]].
  destruct (dict_has _ d); [by intros [= <-]|].
  destruct (pg_edge _ _) as [ed|] eqn:Hed; simpl; [|done].
  intros [= <-]. apply shaped_add; eauto using pg_edge_shape.
Qed.

Lemma shaped_row acc row acc' :
  Forall labelled acc.1.*2 /\ Forall (fun ed => e_type ed = "DIRECTED") acc.2.*2 ->
  pg_row acc row = Ok acc' ->
  Forall labelled acc'.1.*2 /\ Forall (fun ed => e_type ed = "DIRECTED") acc'.2.*2.
Proof.
  destruct acc as [nd ed]. intros [Hn He]. unfold pg_row. simpl in *.
  set (rn := match row_n row with Dict v => _ | Items l => _ | _ => _ end).
  destruct rn as [nd'|] eqn:Hrn; simpl; [|done].
  set (rr := match row_r row with Dict v => _ | Items l => _ | _ => _ end).
  destruct rr as [ed'|] eqn:Hrr; simpl; [|done].
  intros [= <-]. simpl. split.
  - subst rn. destruct (row_n row); try (by injection Hrn as <-).
    + by eapply shaped_single_node.
    + eapply (for_each_invariant list_node (fun d => Forall labelled d.*2));
        [|exact Hn|exact Hrn]. intros; by eapply shaped_list_node.
  - subst rr. destruct (row_r row); try (by injection Hrr as <-).
    + by eapply shaped_single_edge.
    + eapply (for_each_invariant list_edge
                (fun d => Forall (fun ed => e_type ed = "DIRECTED") d.*2));
        [|exact He|exact Hrr]. intros; by eapply shaped_list_edge.
Qed.

(** Whenever the Postgres extraction returns a graph, its flag is decided
    by the count query alone (the counted total exceeds [max_nodes]; no
    count row means no flag), every node is labelled with the
    [entity_id] among its properties, and every edge has the type
    [DIRECTED]. *)
Theorem pg_graph_shape (count_result : list Z) (results : list PgRow) (max_nodes : Z)
    (kg : KnowledgeGraph) :
  pg_get_knowledge_graph count_result results max_nodes = Ok kg ->
  is_truncated kg = (match count_result with t :: _ => t | [] => 0 end >? max_nodes) /\
  Forall labelled (nodes kg) /\
  Forall (fun ed => e_type ed = "DIRECTED") (edges kg).
Proof.
  unfold pg_get_knowledge_graph.
  destruct (for_each pg_row results ([], [])) as [acc|] eqn:Hacc; simpl; [|done].
  intros [= <-]. simpl. split; [done|].
  apply (for_each_invariant pg_row
           (fun acc => Forall labelled acc.1.*2 /\
                       Forall (fun ed => e_type ed = "DIRECTED") acc.2.*2)) in Hacc.
  - exact Hacc.
  - intros; by eapply shaped_row.
  - simpl. split; constructor.
Qed.

Lemma pg_graph_shape_witness :
  false = (2 >? 10) /\
  Forall labelled [ {| n_id := "1"; n_labels := [Some "A"];
                       n_properties := [("entity_id", "A")] |};
                    {| n_id := "2"; n_labels := [Some "B"];
                       n_properties := [("entity_id", "B")] |} ] /\
  Forall (fun ed => e_type ed = "DIRECTED")
         [ {| e_id := "7"; e_type := "DIRECTED"; e_source := "1"; e_target := "2";
              e_properties := [] |} ].
Proof.
  apply (pg_graph_shape [2] [path_row; path_row] 10
           {| nodes := [ {| n_id := "1"; n_labels := [Some "A"];
                            n_properties := [("entity_id", "A")] |};
                         {| n_id := "2"; n_labels := [Some "B"];
                            n_properties := [("entity_id", "B")] |} ];
              edges := [ {| e_id := "7"; e_type := "DIRECTED"; e_source := "1";
                            e_target := "2"; e_properties := [] |} ];
              is_truncated := false |}).
  vm_compute. reflexivity.
Defined.
